(** * zephyr.types: a shallow embedding of the schema types and their
      load / dump / validate protocol

    The development follows [src/zephyr/types.py].  Python values are an
    inductive type, a [dict] is a finite map, an exception is an explicit
    outcome, and a [try ... except ValidationError] block inside a [for]
    loop is a fold that threads the error builder and the partial result.

    Iterating over a [dict] visits the entries of the finite map in the
    order of [map_to_list]: a fixed order, though not the insertion order
    of Python.  The order can only be observed when several iterations
    of one loop raise different exceptions other than [ValidationError]. *)

From Stdlib Require Import ZArith Ascii String.
From stdpp Require Import base option list gmap fin_maps strings pretty.

#[local] Set Warnings "-register-all".
#[local] Open Scope string_scope.

(** ** Python values *)

(** Keys of dictionaries and of error trees: integers (list positions)
    and strings (field names, mapping keys). *)
Inductive key :=
  | KInt (z : Z)
  | KStr (s : string).

#[global] Instance key_eq_dec : EqDecision key.
Proof. solve_decision. Defined.

#[global] Instance key_countable : Countable key.
Proof.
  refine (inj_countable'
            (fun k => match k with KInt z => inl z | KStr s => inr s end)
            (fun x => match x with inl z => KInt z | inr s => KStr s end) _).
  by intros [].
Defined.

#[global] Instance KStr_inj : Inj (=) (=) KStr.
Proof. by intros ?? [= ->]. Qed.

(** The [messages] attribute of a [ValidationError]: one message, several
    messages for the same place, or a tree keyed by field name / index. *)
Inductive messages :=
  | MStr (s : string)
  | MList (l : list messages)
  | MDict (d : gmap key messages).

(** Exceptions other than [ValidationError] that the module can raise. *)
Inductive exn :=
  | AttributeError
  | NameError
  | ValueError
  | KeyError
  | IndexError
  | TypeError.

(** The result of running a piece of code: it returns, raises
    [ValidationError(m)], or raises something else.  The class
    [zephyr.errors.ValidationError] is not among the sources; from its
    uses it is an exception built from a message structure that it
    keeps in its attribute [messages]. *)
Inductive outcome (A : Type) :=
  | Ok (a : A)
  | Invalid (m : messages)
  | Raise (e : exn).

Arguments Ok {A} a.
Arguments Invalid {A} m.
Arguments Raise {A} e.

#[global] Instance outcome_ret : MRet outcome := fun A a => Ok a.

#[global] Instance outcome_bind : MBind outcome := fun A B f x =>
  match x with
  | Ok a => f a
  | Invalid m => Invalid m
  | Raise e => Raise e
  end.

#[global] Instance outcome_fmap : FMap outcome := fun A B f x =>
  match x with
  | Ok a => Ok (f a)
  | Invalid m => Invalid m
  | Raise e => Raise e
  end.

(** [if cond: stmt] where [stmt] only raises. *)
Definition when (cond : bool) (stmt : outcome unit) : outcome unit :=
  if cond then stmt else Ok tt.

(** Values.  [VMissing] is the module-level sentinel [MISSING = object()];
    [VObj] is an instance with the given attributes; [VMethod] is a
    zero-argument callable, given by what calling it does. *)
Inductive value :=
  | VMissing
  | VNone
  | VBool (b : bool)
  | VInt (z : Z)
  | VStr (s : string)
  | VList (l : list value)
  | VDict (d : gmap key value)
  | VObj (attrs : gmap string value)
  | VMethod (call : outcome value).

(** [data is MISSING or data is None] *)
Definition is_missing_or_none (data : value) : bool :=
  match data with
  | VMissing | VNone => true
  | _ => false
  end.

(** [x != MISSING]: [MISSING] is a bare [object()], equal only to itself. *)
Definition ne_MISSING (x : value) : bool :=
  match x with
  | VMissing => false
  | _ => true
  end.

(** ** Collaborators that live outside [types.py] *)

(** Modelled from the spec: [zephyr.utils.is_list] is not among the
    sources; it is the classifier "is this a list-like sequence". *)
Definition is_list (data : value) : bool :=
  match data with
  | VList _ => true
  | _ => false
  end.

(** Modelled from the spec: [zephyr.utils.is_dict] is not among the
    sources; it is the classifier "is this a mapping". *)
Definition is_dict (data : value) : bool :=
  match data with
  | VDict _ => true
  | _ => false
  end.

(** The classes named in [isinstance] tests. *)
Inductive pyclass :=
  | class_int
  | class_str
  | class_bool.

(** Python's [isinstance(v, cls)]; [bool] is a subclass of [int]. *)
Definition isinstance1 (v : value) (cls : pyclass) : bool :=
  match cls, v with
  | class_int, (VInt _ | VBool _) => true
  | class_str, VStr _ => true
  | class_bool, VBool _ => true
  | _, _ => false
  end.

(** [isinstance(v, classes)] with a tuple of classes. *)
Definition isinstance (v : value) (classes : list pyclass) : bool :=
  existsb (isinstance1 v) classes.

(** Modelled from the spec: [zephyr.compat.int_types] is not among the
    sources; it is the integer type-membership test of the host. *)
Definition int_types : list pyclass := [class_int].

(** Modelled from the spec: [zephyr.compat.string_types] is not among
    the sources; it is the string type-membership test of the host. *)
Definition string_types : list pyclass := [class_str].

(** Modelled from the spec: [zephyr.compat.iteritems] is not among the
    sources; it enumerates the (key, value) pairs of a mapping. *)
Definition iteritems {K} `{Countable K} {A} (m : gmap K A) : list (K * A) :=
  map_to_list m.

(** Modelled from the spec: a helper of [merge_errors] below, the
    messages recorded for one place as a list. *)
Definition as_list (m : messages) : list messages :=
  match m with
  | MList l => l
  | _ => [m]
  end.

(** Modelled from the spec: [zephyr.errors.merge_errors] is not among
    the sources.  It merges nested error structures: two keyed trees are
    merged key by key, anything else is collected into one list of
    messages. *)
Fixpoint merge_errors (errors1 errors2 : messages) : messages :=
  match errors1, errors2 with
  | MDict d1, MDict d2 =>
      MDict (union_with (fun m1 m2 => Some (merge_errors m1 m2)) d1 d2)
  | _, _ => MList (as_list errors1 ++ as_list errors2)
  end.

(** Modelled from the spec: [zephyr.errors.ValidationErrorBuilder] is not
    among the sources.  It is the aggregator of the component design: it
    holds what was recorded so far, if anything. *)
Record ValidationErrorBuilder := { errors : option messages }.

(** Modelled from the spec: [ValidationErrorBuilder()], with nothing
    recorded. *)
Definition new_builder : ValidationErrorBuilder := {| errors := None |}.

(** Modelled from the spec: [add_errors] merges a message structure into
    what was recorded. *)
Definition add_errors (eb : ValidationErrorBuilder) (m : messages)
  : ValidationErrorBuilder :=
  {| errors := Some (from_option (fun e => merge_errors e m) m (errors eb)) |}.

(** Modelled from the spec: [add_error] records a message structure
    under one key. *)
Definition add_error (eb : ValidationErrorBuilder) (k : key) (m : messages)
  : ValidationErrorBuilder :=
  add_errors eb (MDict {[ k := m ]}).

(** Modelled from the spec: [raise_errors] raises one [ValidationError]
    carrying everything if anything was recorded, and does nothing
    otherwise. *)
Definition raise_errors (eb : ValidationErrorBuilder) : outcome unit :=
  match errors eb with
  | Some m => Invalid m
  | None => Ok tt
  end.

(** ** [str.format] on message templates

    The fragment of Python's [template.format] with keyword arguments that the
    templates of this module use: literal text, the escapes [{{] and
    [}}], and replacement fields [{name}] looked up among the keyword
    arguments.  Conversions and format specifications are outside the
    fragment (their characters are read as part of the name). *)
Definition kwargs := list (string * string).

Fixpoint kwargs_get (kw : kwargs) (name : string) : option string :=
  match kw with
  | [] => None
  | (n, v) :: rest => if decide (n = name) then Some v else kwargs_get rest name
  end.

Definition is_digits (s : string) : bool :=
  forallb (fun c => (48 <=? nat_of_ascii c)%nat && (nat_of_ascii c <=? 57)%nat)
          (list_ascii_of_string s).

(** [field = None]: reading literal text; [field = Some n]: inside a
    replacement field whose name so far is [n]. *)
Fixpoint format_from (kw : kwargs) (field : option string) (template : string)
  : outcome string :=
  match field, template with
  | None, EmptyString => Ok EmptyString
  | None, String "{" (String "{" rest) => String "{" <$> format_from kw None rest
  | None, String "}" (String "}" rest) => String "}" <$> format_from kw None rest
  | None, String "{" rest => format_from kw (Some EmptyString) rest
  | None, String "}" _ => Raise ValueError
  | None, String c rest => String c <$> format_from kw None rest
  | Some _, EmptyString => Raise ValueError
  | Some n, String "}" rest =>
      if is_digits n then Raise IndexError
      else match kwargs_get kw n with
           | Some v => String.append v <$> format_from kw None rest
           | None => Raise KeyError
           end
  | Some n, String c rest => format_from kw (Some (n ++ String c EmptyString)) rest
  end.

Definition format (template : string) (kw : kwargs) : outcome string :=
  format_from kw None template.

(** ** The base class [Type] *)

(** An extra validator: a callable run on the data for its exceptions. *)
Definition validator := value -> outcome unit.

(** The instance attributes set by [Type.__init__]. *)
Record Type_attrs := {
  _validators : list validator;
  _error_messages : gmap string messages;
}.

(** [Type.default_error_messages] *)
Definition Type_default_error_messages : gmap string messages :=
  {[ "invalid_type" := MStr "Value should be {expected}";
     "required" := MStr "Value is required" ]}.

(** The [validate] argument of a constructor: absent, one callable, or a
    list of callables. *)
Inductive validate_arg :=
  | validate_None
  | validate_callable (f : validator)
  | validate_list (fs : list validator).

(** [Type.__init__]; [default_error_messages] is the class attribute of
    the class being instantiated.  [dict(a, **b)] is [b] over [a]. *)
Definition Type_init (default_error_messages : gmap string messages)
    (validate : validate_arg) (error_messages : option (gmap string messages))
  : Type_attrs :=
  {| _validators :=
       match validate with
       | validate_None => []
       | validate_callable f => [f]
       | validate_list fs => fs
       end;
     _error_messages := default ∅ error_messages ∪ default_error_messages |}.

(** [Type._fail]: never returns. *)
Definition _fail {A} (self : Type_attrs) (k : string) (kw : kwargs) : outcome A :=
  match _error_messages self !! k with
  | None => Raise ValueError
  | Some (MStr template) =>
      match format template kw with
      | Ok msg => Invalid (MStr msg)
      | Invalid m => Invalid m
      | Raise e => Raise e
      end
  | Some msg => Invalid msg
  end.

(** The loop of [Type.load] over the extra validators. *)
Fixpoint run_validators (vs : list validator) (data : value)
    (errors_builder : ValidationErrorBuilder) : outcome ValidationErrorBuilder :=
  match vs with
  | [] => Ok errors_builder
  | validator :: rest =>
      match validator data with
      | Ok _ => run_validators rest data errors_builder
      | Invalid m => run_validators rest data (add_errors errors_builder m)
      | Raise e => Raise e
      end
  end.

(** [Type.load] *)
Definition Type_load (self : Type_attrs) (data : value) : outcome value :=
  errors_builder ← run_validators (_validators self) data new_builder;
  raise_errors errors_builder;;
  Ok data.

(** [Type.dump] *)
Definition Type_dump (self : Type_attrs) (v : value) : outcome value :=
  Ok v.

(** ** Scalar types *)

(** [Integer.load] *)
Definition Integer_load (self : Type_attrs) (data : value) : outcome value :=
  when (is_missing_or_none data) (_fail self "required" []);;
  when (negb (isinstance data int_types))
       (_fail self "invalid_type" [("expected", "integer")]);;
  Type_load self data.

(** [Integer.dump] *)
Definition Integer_dump (self : Type_attrs) (v : value) : outcome value :=
  when (is_missing_or_none v) (_fail self "required" []);;
  when (negb (isinstance v int_types))
       (_fail self "invalid_type" [("expected", "integer")]);;
  Type_dump self v.

(** [str(value)] on a value that passed the string check. *)
Definition str (v : value) : value := v.

(** [String.load] *)
Definition String_load (self : Type_attrs) (data : value) : outcome value :=
  when (is_missing_or_none data) (_fail self "required" []);;
  when (negb (isinstance data string_types))
       (_fail self "invalid_type" [("expected", "string")]);;
  Type_load self data.

(** [String.dump] *)
Definition String_dump (self : Type_attrs) (v : value) : outcome value :=
  when (is_missing_or_none v) (_fail self "required" []);;
  when (negb (isinstance v string_types))
       (_fail self "invalid_type" [("expected", "string")]);;
  Type_dump self (str v).

(** [bool(value)] on a value that passed the boolean check. *)
Definition bool_ (v : value) : value := v.

(** [Boolean.load] *)
Definition Boolean_load (self : Type_attrs) (data : value) : outcome value :=
  when (is_missing_or_none data) (_fail self "required" []);;
  when (negb (isinstance data [class_bool]))
       (_fail self "invalid_type" [("expected", "boolean")]);;
  Type_load self data.

(** [Boolean.dump] *)
Definition Boolean_dump (self : Type_attrs) (v : value) : outcome value :=
  when (is_missing_or_none v) (_fail self "required" []);;
  when (negb (isinstance v [class_bool]))
       (_fail self "invalid_type" [("expected", "boolean")]);;
  Type_dump self (bool_ v).

(** ** Loops with [try ... except ValidationError]

    [for k, x in items: try: <body> except ValidationError as ve: <handler>].
    The body computes the update it makes to the partial result (an
    [append], an item assignment, or nothing); the handler updates the
    error builder; any other exception leaves the loop. *)
Fixpoint for_each {K X R : Type}
    (body : K -> X -> outcome (R -> R))
    (handler : K -> messages -> ValidationErrorBuilder -> outcome ValidationErrorBuilder)
    (items : list (K * X))
    (errors_builder : ValidationErrorBuilder) (result : R)
  : outcome (ValidationErrorBuilder * R) :=
  match items with
  | [] => Ok (errors_builder, result)
  | (k, x) :: rest =>
      match body k x with
      | Ok update => for_each body handler rest errors_builder (update result)
      | Invalid m =>
          match handler k m errors_builder with
          | Ok errors_builder' => for_each body handler rest errors_builder' result
          | Invalid m' => Invalid m'
          | Raise e => Raise e
          end
      | Raise e => Raise e
      end
  end.

(** [enumerate(xs)] *)
Definition enumerate {X} (xs : list X) : list (nat * X) :=
  imap (fun idx x => (idx, x)) xs.

(** The key under which position [idx] is reported. *)
Definition index_key (idx : nat) : key := KInt (Z.of_nat idx).

(** Attribute lookup on a [list] object, for the two names the module
    asks for: [append] is a list method, [add] is not. *)
Definition list_method (name : string)
  : outcome (list value -> value -> list value) :=
  if decide (name = "append") then Ok (fun l x => (l ++ [x])%list)
  else Raise AttributeError.

(** Reading a name that is bound neither locally nor at module level. *)
Definition unbound_name {A} (name : string) : outcome A := Raise NameError.

(** [len(x)] of a list. *)
Definition len (data : value) : nat :=
  match data with
  | VList l => length l
  | _ => 0
  end.

Definition list_items (data : value) : list value :=
  match data with
  | VList l => l
  | _ => []
  end.

Definition dict_items (data : value) : gmap key value :=
  match data with
  | VDict d => d
  | _ => ∅
  end.

(** ** [List] *)

(** The handler [errors_builder.add_errors({idx: ve.messages})]. *)
Definition record_at_index (idx : nat) (m : messages)
    (errors_builder : ValidationErrorBuilder) : outcome ValidationErrorBuilder :=
  Ok (add_errors errors_builder (MDict {[ index_key idx := m ]})).

(** The [try] block of both loops of [List]:
    [items.append(self.item_type.load(item))], or the same with [dump]. *)
Definition List_try (item_convert : value -> outcome value)
    (idx : nat) (item : value) : outcome (list value -> list value) :=
  append ← list_method "append";
  converted ← item_convert item;
  Ok (fun items => append items converted).

(** [List.load]; [item_load] is [self.item_type.load]. *)
Definition List_load (self : Type_attrs) (item_load : value -> outcome value)
    (data : value) : outcome value :=
  when (is_missing_or_none data) (_fail self "required" []);;
  when (negb (is_list data)) (_fail self "invalid_type" [("expected", "list")]);;
  '(errors_builder, items) ←
    for_each (List_try item_load) record_at_index
             (enumerate (list_items data)) new_builder [];
  raise_errors errors_builder;;
  Type_load self (VList items).

(** [List.dump]; [item_dump] is [self.item_type.dump]. *)
Definition List_dump (self : Type_attrs) (item_dump : value -> outcome value)
    (v : value) : outcome value :=
  when (is_missing_or_none v) (_fail self "required" []);;
  when (negb (is_list v)) (_fail self "invalid_type" [("expected", "list")]);;
  '(errors_builder, items) ←
    for_each (List_try item_dump) record_at_index
             (enumerate (list_items v)) new_builder [];
  raise_errors errors_builder;;
  Type_dump self (VList items).

(** ** [Tuple] *)

(** [Tuple.default_error_messages] *)
Definition Tuple_default_error_messages : gmap string messages :=
  {[ "invalid_length" := MStr "Value length should be {expected_length}" ]}
  ∪ Type_default_error_messages.

(** The [try] block of both loops of [Tuple]:
    [result.add(item_type.load(item))], or the same with [dump].  The
    attribute [result.add] is looked up before the argument is
    evaluated. *)
Definition Tuple_try (idx : nat) (pair : (value -> outcome value) * value)
  : outcome (list value -> list value) :=
  let '(item_convert, item) := pair in
  add ← list_method "add";
  converted ← item_convert item;
  Ok (fun result => add result converted).

(** [Tuple.load]; [item_loads] are the [load] methods of
    [self.item_types]. *)
Definition Tuple_load (self : Type_attrs)
    (item_loads : list (value -> outcome value)) (data : value) : outcome value :=
  when (is_missing_or_none data) (_fail self "required" []);;
  when (negb (is_list data)) (_fail self "invalid_type" [("expected", "list")]);;
  when (negb (bool_decide (len data = length item_loads)))
       (_fail self "invalid_length"
              [("expected_length", pretty (length item_loads))]);;
  '(errors_builder, result) ←
    for_each Tuple_try record_at_index
             (enumerate (zip item_loads (list_items data))) new_builder [];
  raise_errors errors_builder;;
  Type_load self (VList result).

(** [Tuple.dump]; its parameter is [value], and [is_list(data)] reads a
    name that is not bound. *)
Definition Tuple_dump (self : Type_attrs)
    (item_dumps : list (value -> outcome value)) (v : value) : outcome value :=
  when (is_missing_or_none v) (_fail self "required" []);;
  data ← unbound_name "data";
  when (negb (is_list data)) (_fail self "invalid_type" [("expected", "list")]);;
  when (negb (bool_decide (len v = length item_dumps)))
       (_fail self "invalid_length"
              [("expected_length", pretty (length item_dumps))]);;
  '(errors_builder, result) ←
    for_each Tuple_try record_at_index
             (enumerate (zip item_dumps (list_items v))) new_builder [];
  raise_errors errors_builder;;
  Type_dump self (VList result).

(** ** [Dict] *)

(** [DictWithDefault.get] (through [__getitem__]) on the contents of
    [self.values] and on [self.default]; the [default] parameter of
    [get] is not used. *)
Definition DictWithDefault_get {T} (values : gmap key T) (default : option T)
    (k : key) : option T :=
  match values !! k with
  | Some t => Some t
  | None => default
  end.

(** The handler [errors_builder.add_error(k, ve.messages)]. *)
Definition record_at_key {K} (key_of : K -> key) (k : K) (m : messages)
    (errors_builder : ValidationErrorBuilder) : outcome ValidationErrorBuilder :=
  Ok (add_error errors_builder (key_of k) m).

(** The body of both loops of [Dict]: [continue] when the key resolves
    to no type, else [result[k] = value_type.load(v)], or the same with
    [dump].  [value_type_convert k] is that method of
    [self.value_types.get(k)], or [None]. *)
Definition Dict_try (value_type_convert : key -> option (value -> outcome value))
    (k : key) (v : value) : outcome (gmap key value -> gmap key value) :=
  match value_type_convert k with
  | None => Ok id
  | Some convert => converted ← convert v; Ok (<[ k := converted ]>)
  end.

(** [Dict.load] *)
Definition Dict_load (self : Type_attrs)
    (value_type_load : key -> option (value -> outcome value))
    (data : value) : outcome value :=
  when (is_missing_or_none data) (_fail self "required" []);;
  when (negb (is_dict data)) (_fail self "invalid_type" [("expected", "dict")]);;
  '(errors_builder, result) ←
    for_each (Dict_try value_type_load) (record_at_key id)
             (iteritems (dict_items data)) new_builder ∅;
  raise_errors errors_builder;;
  Type_load self (VDict result).

(** [Dict.dump] *)
Definition Dict_dump (self : Type_attrs)
    (value_type_dump : key -> option (value -> outcome value))
    (v : value) : outcome value :=
  when (is_missing_or_none v) (_fail self "required" []);;
  when (negb (is_dict v)) (_fail self "invalid_type" [("expected", "dict")]);;
  '(errors_builder, result) ←
    for_each (Dict_try value_type_dump) (record_at_key id)
             (iteritems (dict_items v)) new_builder ∅;
  raise_errors errors_builder;;
  Type_dump self (VDict result).

(** ** Type descriptors and fields *)

(** One constructor per class, carrying the instance attributes.  The
    [value_types] of a [Dict] is given by the contents of its [values]
    mapping and its [default]; a plain [dict] passed by the caller is the
    case without a default. *)
Inductive ty :=
  | Any (self : Type_attrs)
  | Integer (self : Type_attrs)
  | String_ (self : Type_attrs)
  | Boolean (self : Type_attrs)
  | List_ (self : Type_attrs) (item_type : ty)
  | Tuple (self : Type_attrs) (item_types : list ty)
  | Dict (self : Type_attrs) (values : gmap key ty) (default : option ty)
  | Object (self : Type_attrs) (fields : gmap string field)
           (constructor : gmap string value -> outcome value)
           (allow_extra_fields : bool)
with field :=
  | Field (field_type : ty)
  | ConstantField (field_type : ty) (val : value)
  | AttributeField (field_type : ty) (attribute : option string)
  | MethodField (field_type : ty) (method : option string)
  | FunctionField (field_type : ty) (function : string -> value -> outcome value).

(** [a or b] on an optional string: [None] and the empty string are false. *)
Definition or_name (a : option string) (b : string) : string :=
  match a with
  | Some s => if decide (s = "") then b else s
  | None => b
  end.

(** [getattr(obj, name, default)]; only instances carry attributes. *)
Definition getattr (obj : value) (name : string) (default : value) : value :=
  match obj with
  | VObj attrs => from_option id default (attrs !! name)
  | _ => default
  end.

(** [hasattr(obj, name)] *)
Definition hasattr (obj : value) (name : string) : bool :=
  match obj with
  | VObj attrs => bool_decide (is_Some (attrs !! name))
  | _ => false
  end.

(** [callable(x)] *)
Definition callable (x : value) : bool :=
  match x with
  | VMethod _ => true
  | _ => false
  end.

(** [x()] *)
Definition call (x : value) : outcome value :=
  match x with
  | VMethod c => c
  | _ => Raise TypeError
  end.

(** [_get_value] of each field class; the base class calls
    [NotImplemented], which is not callable. *)
Definition _get_value (f : field) (name : string) (obj : value) : outcome value :=
  match f with
  | Field _ => Raise TypeError
  | ConstantField _ val => Ok val
  | AttributeField _ attribute => Ok (getattr obj (or_name attribute name) VMissing)
  | MethodField _ method =>
      let name := or_name method name in
      when (negb (hasattr obj name)) (Raise ValueError);;
      when (negb (callable (getattr obj name VMissing))) (Raise ValueError);;
      call (getattr obj name VMissing)
  | FunctionField _ function => function name obj
  end.

(** [data.get(name, MISSING)] on the input mapping. *)
Definition data_get (data : value) (name : string) : value :=
  from_option id VMissing (dict_items data !! KStr name).

(** [Object.default_error_messages] *)
Definition Object_default_error_messages : gmap string messages :=
  {[ "unknown" := MStr "Unknown field" ]} ∪ Type_default_error_messages.

(** [name not in self.fields], negated. *)
Definition in_fields {F} (fields : gmap string F) (name : key) : bool :=
  match name with
  | KStr s => bool_decide (is_Some (fields !! s))
  | KInt _ => false
  end.

(** The loop [for name in data: if name not in self.fields: ...] of
    [Object.load]. *)
Fixpoint report_unknown {F} (self : Type_attrs) (fields : gmap string F)
    (names : list key) (errors_builder : ValidationErrorBuilder)
  : outcome ValidationErrorBuilder :=
  match names with
  | [] => Ok errors_builder
  | name :: rest =>
      if in_fields fields name then report_unknown self fields rest errors_builder
      else match _error_messages self !! "unknown" with
           | Some msg =>
               report_unknown self fields rest (add_error errors_builder name msg)
           | None => Raise KeyError
           end
  end.

(** A dict with string keys as a value. *)
Definition dict_value (d : gmap string value) : value := VDict (kmap KStr d).

(** The [try] block of both loops of [Object]:
    [loaded = field.load(name, data)] and, unless it is [MISSING],
    [result[name] = loaded]; or the same with [dump] and [obj]. *)
Definition Object_try (source : value) (name : string)
    (field_convert : string -> value -> outcome value)
  : outcome (gmap string value -> gmap string value) :=
  converted ← field_convert name source;
  Ok (fun result =>
        if ne_MISSING converted then <[ name := converted ]> result else result).

(** [Object.load]; [field_loads] maps each name of [self.fields] to the
    [load] method of its field.  [Type.load] hands back the dict it
    was given, so the constructor receives [result]. *)
Definition Object_load (self : Type_attrs)
    (field_loads : gmap string (string -> value -> outcome value))
    (constructor : gmap string value -> outcome value)
    (allow_extra_fields : bool) (data : value) : outcome value :=
  when (is_missing_or_none data) (_fail self "required" []);;
  when (negb (is_dict data)) (_fail self "invalid_type" [("expected", "dict")]);;
  '(errors_builder, result) ←
    for_each (Object_try data) (record_at_key KStr)
             (iteritems field_loads) new_builder ∅;
  errors_builder ←
    (if negb allow_extra_fields
     then report_unknown self field_loads (iteritems (dict_items data)).*1
                         errors_builder
     else Ok errors_builder);
  raise_errors errors_builder;;
  Type_load self (dict_value result);;
  constructor result.

(** [Object.dump]; [field_dumps] maps each name of [self.fields] to the
    [dump] method of its field.  The handler reads [k], which is bound
    nowhere. *)
Definition Object_dump (self : Type_attrs)
    (field_dumps : gmap string (string -> value -> outcome value))
    (obj : value) : outcome value :=
  when (is_missing_or_none obj) (_fail self "required" []);;
  '(errors_builder, result) ←
    for_each (Object_try obj)
             (fun name m errors_builder =>
                k ← unbound_name "k";
                Ok (add_error errors_builder k m))
             (iteritems field_dumps) new_builder ∅;
  raise_errors errors_builder;;
  Type_dump self (dict_value result).

(** The methods [load] of the type classes and of the field classes.
    [Field.load] answers [MISSING]; only [AttributeField] overrides it. *)
Fixpoint load (t : ty) : value -> outcome value :=
  match t with
  | Any self => Type_load self
  | Integer self => Integer_load self
  | String_ self => String_load self
  | Boolean self => Boolean_load self
  | List_ self item_type => List_load self (load item_type)
  | Tuple self item_types => Tuple_load self (load <$> item_types)
  | Dict self values default =>
      Dict_load self (DictWithDefault_get (load <$> values) (load <$> default))
  | Object self fields constructor allow_extra_fields =>
      Object_load self (Field_load <$> fields) constructor allow_extra_fields
  end
with Field_load (f : field) : string -> value -> outcome value :=
  match f with
  | AttributeField field_type _ =>
      fun name data => load field_type (data_get data name)
  | _ => fun name data => Ok VMissing
  end.

(** The methods [dump] of the type classes and [Field.dump]. *)
Fixpoint dump (t : ty) : value -> outcome value :=
  match t with
  | Any self => Type_dump self
  | Integer self => Integer_dump self
  | String_ self => String_dump self
  | Boolean self => Boolean_dump self
  | List_ self item_type => List_dump self (dump item_type)
  | Tuple self item_types => Tuple_dump self (dump <$> item_types)
  | Dict self values default =>
      Dict_dump self (DictWithDefault_get (dump <$> values) (dump <$> default))
  | Object self fields _ _ => Object_dump self (Field_dump <$> fields)
  end
with Field_dump (f : field) : string -> value -> outcome value :=
  match f with
  | Field field_type
  | ConstantField field_type _
  | AttributeField field_type _
  | MethodField field_type _
  | FunctionField field_type _ =>
      fun name obj => v ← _get_value f name obj; dump field_type v
  end.

(** [Type.validate], inherited by every class. *)
Definition validate (t : ty) (data : value) : outcome messages :=
  match load t data with
  | Ok _ => Ok (MDict ∅)
  | Invalid m => Ok m
  | Raise e => Raise e
  end.

(** ** Constructors *)

(** The builtin [dict] called with keyword arguments. *)
Definition dict (kw : gmap string value) : outcome value := Ok (dict_value kw).

Definition Any_init (validate : validate_arg)
    (error_messages : option (gmap string messages)) : ty :=
  Any (Type_init Type_default_error_messages validate error_messages).

Definition Integer_init (validate : validate_arg)
    (error_messages : option (gmap string messages)) : ty :=
  Integer (Type_init Type_default_error_messages validate error_messages).

Definition String_init (validate : validate_arg)
    (error_messages : option (gmap string messages)) : ty :=
  String_ (Type_init Type_default_error_messages validate error_messages).

Definition Boolean_init (validate : validate_arg)
    (error_messages : option (gmap string messages)) : ty :=
  Boolean (Type_init Type_default_error_messages validate error_messages).

(** [List.__init__] *)
Definition List_init (item_type : ty) (validate : validate_arg)
    (error_messages : option (gmap string messages)) : ty :=
  List_ (Type_init Type_default_error_messages validate error_messages) item_type.

(** [Tuple.__init__] *)
Definition Tuple_init (item_types : list ty) (validate : validate_arg)
    (error_messages : option (gmap string messages)) : ty :=
  Tuple (Type_init Tuple_default_error_messages validate error_messages) item_types.

(** [field if isinstance(field, Field) else default_field_type(field)] *)
Definition as_field (default_field_type : ty -> field) (f : field + ty) : field :=
  match f with
  | inl fld => fld
  | inr t => default_field_type t
  end.

(** [Object.__init__]: a bare type among [fields] is wrapped with
    [default_field_type]. *)
Definition Object_init (fields : gmap string (field + ty))
    (constructor : gmap string value -> outcome value)
    (default_field_type : ty -> field)
    (allow_extra_fields : bool)
    (validate : validate_arg)
    (error_messages : option (gmap string messages)) : ty :=
  Object (Type_init Object_default_error_messages validate error_messages)
         (as_field default_field_type <$> fields)
         constructor allow_extra_fields.

(** The instances [Any()], [Integer()], [String()] and [Boolean()]. *)
Definition default_Any : ty := Any_init validate_None None.
Definition default_Integer : ty := Integer_init validate_None None.
Definition default_String : ty := String_init validate_None None.
Definition default_Boolean : ty := Boolean_init validate_None None.

(** ** [DictWithDefault] and [Dict.__init__]: mapping objects in a store

    A [dict] object is mutable and is reached through references, so the
    construction of [Dict] descriptors is modelled over a store of mapping
    objects.  The default [values={}] of [DictWithDefault.__init__] is
    evaluated once, when the [def] statement runs: it is one object of
    the store, at [values_default]. *)
Module DictWithDefault.

Definition loc := nat.

Record store := {
  dicts : gmap loc (gmap key ty);
  next_loc : loc;
}.

(** The mapping object bound to the default of the parameter [values]. *)
Definition values_default : loc := 0.

(** The store once the module has been imported. *)
Definition imported : store :=
  {| dicts := {[ values_default := ∅ ]}; next_loc := 1 |}.

(** A dict display [{}] evaluated by the caller: a new object. *)
Definition new_dict (st : store) : loc * store :=
  (next_loc st,
   {| dicts := <[ next_loc st := ∅ ]> (dicts st); next_loc := S (next_loc st) |}).

Record t := {
  values : loc;
  default : option ty;
}.

(** [DictWithDefault.__init__(self, values={}, default=None)] *)
Definition init (values_arg : option loc) (default_arg : option ty) : t :=
  {| values := from_option id values_default values_arg;
     default := default_arg |}.

Definition contents (st : store) (self : t) : gmap key ty :=
  from_option id ∅ (dicts st !! values self).

(** [__len__] *)
Definition len_ (st : store) (self : t) : nat := size (contents st self).

(** [__getitem__] *)
Definition getitem (st : store) (self : t) (k : key) : option ty :=
  DictWithDefault_get (contents st self) (default self) k.

(** [__setitem__] *)
Definition setitem (st : store) (self : t) (k : key) (v : ty) : store :=
  {| dicts := <[ values self := <[ k := v ]> (contents st self) ]> (dicts st);
     next_loc := next_loc st |}.

(** [__delitem__] *)
Definition delitem (st : store) (self : t) (k : key) : outcome store :=
  match contents st self !! k with
  | Some _ =>
      Ok {| dicts := <[ values self := delete k (contents st self) ]> (dicts st);
            next_loc := next_loc st |}
  | None => Raise KeyError
  end.

(** [get(self, key, default=None)] *)
Definition get (st : store) (self : t) (k : key) : option ty :=
  getitem st self k.

End DictWithDefault.

(** A [Dict] instance: its [Type] attributes and [self.value_types]. *)
Record Dict_instance := {
  Dict_attrs : Type_attrs;
  value_types : DictWithDefault.t;
}.

(** [Dict.__init__(self, value_type=Any(), **kwargs)]: a [Type] is
    wrapped as [DictWithDefault(default=value_type)]. *)
Definition Dict_init (value_type : ty + DictWithDefault.t)
    (validate : validate_arg)
    (error_messages : option (gmap string messages)) : Dict_instance :=
  {| Dict_attrs := Type_init Type_default_error_messages validate error_messages;
     value_types :=
       match value_type with
       | inl t => DictWithDefault.init None (Some t)
       | inr d => d
       end |}.

(** The descriptor that [load] and [dump] read through a [Dict]
    instance in a given store. *)
Definition Dict_in (st : DictWithDefault.store) (d : Dict_instance) : ty :=
  Dict (Dict_attrs d)
       (DictWithDefault.contents st (value_types d))
       (DictWithDefault.default (value_types d)).

(** ** Vocabulary of the statements *)

(** The builder has recorded exactly the keyed tree [d]. *)
Definition holds (eb : ValidationErrorBuilder) (d : gmap key messages) : Prop :=
  errors eb = if decide (d = ∅) then None else Some (MDict d).

(** The partial result after the loop: the updates of the iterations
    whose body returned, in order. *)
Definition updates {K X R} (body : K -> X -> outcome (R -> R))
    (items : list (K * X)) (result : R) : R :=
  foldl (fun r kx => match body kx.1 kx.2 with Ok u => u r | _ => r end)
        result items.

(** What the [try] block of [Object] stores under the field name. *)
Definition Object_stored (source : value) (name : string)
    (convert : string -> value -> outcome value) : option value :=
  match convert name source with
  | Ok v => if ne_MISSING v then Some v else None
  | _ => None
  end.

(** The three concrete scalar classes, with the constructor, the
    [isinstance] test and the [expected] word of each. *)
Inductive scalar :=
  | scalar_Integer
  | scalar_String
  | scalar_Boolean.

Definition scalar_init (T : scalar)
  : validate_arg -> option (gmap string messages) -> ty :=
  match T with
  | scalar_Integer => Integer_init
  | scalar_String => String_init
  | scalar_Boolean => Boolean_init
  end.

Definition scalar_kind (T : scalar) : list pyclass :=
  match T with
  | scalar_Integer => int_types
  | scalar_String => string_types
  | scalar_Boolean => [class_bool]
  end.

Definition scalar_expected (T : scalar) : string :=
  match T with
  | scalar_Integer => "integer"
  | scalar_String => "string"
  | scalar_Boolean => "boolean"
  end.

(** The message of kind [unknown] after [Object.__init__]. *)
Definition unknown_message (error_messages : option (gmap string messages))
  : messages :=
  from_option id (MStr "Unknown field") (error_messages ≫= (.!! "unknown")).

(** A schema with one integer field [x], as
    [Object({'x': Integer()}, allow_extra_fields=...)]. *)
Definition x_schema (allow_extra_fields : bool) : ty :=
  Object_init {[ "x" := inr default_Integer ]} dict (fun t => AttributeField t None)
              allow_extra_fields validate_None None.

(** A validator accepts the data when it returns. *)
Definition accepts (data : value) (f : validator) : Prop := f data = Ok tt.

(** A message template without replacement fields or brace escapes. *)
Definition no_braces (template : string) : bool :=
  forallb (fun c => negb (bool_decide (c = "{"%char))
                    && negb (bool_decide (c = "}"%char)))
          (list_ascii_of_string template).

(** A message that [_fail] raises as it is: not a string, or a string
    without braces. *)
Definition plain (m : messages) : Prop :=
  match m with
  | MStr template => no_braces template = true
  | _ => True
  end.

(** [self] of a descriptor: the attributes set by [Type.__init__]. *)
Definition attrs_of (t : ty) : Type_attrs :=
  match t with
  | Any self | Integer self | String_ self | Boolean self
  | List_ self _ | Tuple self _ | Dict self _ _ | Object self _ _ _ => self
  end.

(** Instances of the class [Any] itself. *)
Definition is_Any (t : ty) : bool :=
  match t with
  | Any _ => true
  | _ => false
  end.

(** A piece of code that raises nothing but [ValidationError]. *)
Definition no_raise {A} (o : outcome A) : Prop := forall e, o ≠ Raise e.

(** Instance attributes with the templates of [Type] for the kinds
    [required] and [invalid_type], and extra validators that raise
    nothing but [ValidationError]. *)
Definition quiet_attrs (self : Type_attrs) : Prop :=
  _error_messages self !! "required" = Some (MStr "Value is required")
  /\ _error_messages self !! "invalid_type"
     = Some (MStr "Value should be {expected}")
  /\ forall f v, f ∈ _validators self -> no_raise (f v).

(** Schemas without [Tuple], built from such attributes, whose [Object]
    constructors raise nothing but [ValidationError]. *)
Inductive quiet : ty -> Prop :=
  | quiet_Any self :
      (forall f v, f ∈ _validators self -> no_raise (f v)) -> quiet (Any self)
  | quiet_Integer self : quiet_attrs self -> quiet (Integer self)
  | quiet_String self : quiet_attrs self -> quiet (String_ self)
  | quiet_Boolean self : quiet_attrs self -> quiet (Boolean self)
  | quiet_List self item_type :
      quiet_attrs self -> quiet item_type -> quiet (List_ self item_type)
  | quiet_Dict self values default :
      quiet_attrs self ->
      (forall k t, values !! k = Some t -> quiet t) ->
      (forall t, default = Some t -> quiet t) ->
      quiet (Dict self values default)
  | quiet_Object self fields constructor allow_extra_fields :
      quiet_attrs self ->
      is_Some (_error_messages self !! "unknown") ->
      (forall kw, no_raise (constructor kw)) ->
      (forall name field_type attribute,
         fields !! name = Some (AttributeField field_type attribute) ->
         quiet field_type) ->
      quiet (Object self fields constructor allow_extra_fields).

(** * Properties *)

(** ** Sanity checks *)

Example format_expected :
  format "Value should be {expected}" [("expected", "integer")]
  = Ok "Value should be integer".
Proof. reflexivity. Qed.

Example Integer_load_str :
  Integer_load (Type_init Type_default_error_messages validate_None None) (VStr "x")
  = Invalid (MStr "Value should be integer").
Proof. vm_compute. reflexivity. Qed.

(** ** The error builder *)

Lemma holds_new : holds new_builder ∅.
Proof. done. Qed.

Lemma merge_errors_fresh (d : gmap key messages) k m :
  d !! k = None ->
  merge_errors (MDict d) (MDict {[ k := m ]}) = MDict (<[ k := m ]> d).
Proof.
  intros Hk. simpl. f_equal. apply map_eq. intros j.
  rewrite lookup_union_with, lookup_insert.
  destruct (decide (k = j)) as [<-|Hne].
  - by rewrite Hk, lookup_singleton_eq.
  - rewrite lookup_singleton_ne by done. by destruct (d !! j).
Qed.

Lemma holds_add_error eb d k m :
  holds eb d -> d !! k = None -> holds (add_error eb k m) (<[ k := m ]> d).
Proof.
  unfold holds, add_error, add_errors. intros Heb Hk. cbn [errors].
  rewrite decide_False by apply insert_non_empty.
  rewrite Heb. destruct (decide (d = ∅)) as [->|_]; cbn [from_option].
  - by rewrite insert_empty.
  - by rewrite merge_errors_fresh.
Qed.

Lemma raise_errors_holds eb d :
  holds eb d ->
  raise_errors eb = if decide (d = ∅) then Ok tt else Invalid (MDict d).
Proof. unfold holds, raise_errors. intros ->. by destruct (decide (d = ∅)). Qed.

(** ** Loops *)

Lemma updates_cons {K X R} (body : K -> X -> outcome (R -> R)) k x items res :
  updates body ((k, x) :: items) res
  = updates body items (match body k x with Ok u => u res | _ => res end).
Proof. done. Qed.

Section for_each.
Context {K X R : Type}.
Variable body : K -> X -> outcome (R -> R).
Variable key_of : K -> key.
Hypothesis key_of_inj : Inj (=) (=) key_of.

(** A loop whose handler records under the key of the item: it runs to
    the end, and the builder gains exactly the failures. *)
Lemma for_each_keyed (items : list (K * X)) eb res d :
  NoDup items.*1 ->
  (forall k x e, (k, x) ∈ items -> body k x ≠ Raise e) ->
  holds eb d ->
  (forall k x, (k, x) ∈ items -> d !! key_of k = None) ->
  exists eb' d',
    for_each body (record_at_key key_of) items eb res
      = Ok (eb', updates body items res)
    /\ holds eb' d'
    /\ forall j m, d' !! j = Some m <->
         d !! j = Some m \/
         exists k x, (k, x) ∈ items /\ key_of k = j /\ body k x = Invalid m.
Proof.
  revert eb res d.
  induction items as [|[k x] items IH]; intros eb res d Hnd Hnr Heb Hfresh.
  - exists eb, d. split_and!; [done..|].
    intros j m. split; [by left|].
    intros [?|(?&?&Hin&_)]; [done|]. by apply elem_of_nil in Hin.
  - rewrite fmap_cons in Hnd. apply NoDup_cons in Hnd as [Hk Hnd].
    assert (Hnr' : forall k' x' e, (k', x') ∈ items -> body k' x' ≠ Raise e).
    { intros ??? Hin. apply Hnr. by right. }
    assert (Hfresh' : forall k' x', (k', x') ∈ items -> d !! key_of k' = None).
    { intros ?? Hin. apply (Hfresh _ x'). by right. }
    rewrite updates_cons. simpl.
    destruct (body k x) as [u|m|e] eqn:Hb.
    + destruct (IH eb (u res) d Hnd Hnr' Heb Hfresh') as (eb'&d'&Hrun&Hh&Hd').
      exists eb', d'. split_and!; [done..|].
      intros j m. rewrite Hd'. split.
      * intros [?|(k'&x'&Hin&?&?)]; [by left|right].
        exists k', x'. split_and!; [by right|done..].
      * intros [?|(k'&x'&Hin&?&Hb')]; [by left|right].
        apply elem_of_cons in Hin as [[= -> ->]|Hin]; [congruence|].
        by exists k', x'.
    + unfold record_at_key at 1.
      destruct (IH (add_error eb (key_of k) m) res (<[ key_of k := m ]> d))
        as (eb'&d'&Hrun&Hh&Hd'); [done|done| | |].
      * apply holds_add_error; [done|]. apply (Hfresh k x). by left.
      * intros k' x' Hin. rewrite lookup_insert_ne; [by eapply Hfresh'|].
        intros Heq. apply key_of_inj in Heq as ->.
        apply Hk. apply list_elem_of_fmap. by exists (k', x').
      * exists eb', d'. split_and!; [done..|].
        intros j m'. rewrite Hd'. rewrite lookup_insert.
        destruct (decide (key_of k = j)) as [<-|Hne].
        -- rewrite (Hfresh k x) by by left. split.
           ++ intros [[= <-]|(k'&x'&Hin&Hkk&Hb')].
              ** right. exists k, x. split_and!; [by left|done..].
              ** right. exists k', x'. split_and!; [by right|done..].
           ++ intros [?|(k'&x'&Hin&Hkk&Hb')]; [done|].
              apply elem_of_cons in Hin as [[= -> ->]|Hin].
              ** left. congruence.
              ** right. by exists k', x'.
        -- split.
           ++ intros [?|(k'&x'&Hin&Hkk&Hb')]; [by left|right].
              exists k', x'. split_and!; [by right|done..].
           ++ intros [?|(k'&x'&Hin&Hkk&Hb')]; [by left|right].
              apply elem_of_cons in Hin as [[= -> ->]|Hin]; [done|].
              by exists k', x'.
    + exfalso. eapply (Hnr k x e); [by left|done].
Qed.

End for_each.

(** A loop in which every body returns never reaches its handler. *)
Lemma for_each_all_ok {K X R} (body : K -> X -> outcome (R -> R)) handler
    (items : list (K * X)) eb res :
  (forall k x, (k, x) ∈ items -> exists u, body k x = Ok u) ->
  for_each body handler items eb res = Ok (eb, updates body items res).
Proof.
  revert res. induction items as [|[k x] items IH]; intros res Hok; [done|].
  rewrite updates_cons. simpl.
  destruct (Hok k x) as [u ->]; [by left|].
  apply IH. intros k' x' Hin. apply Hok. by right.
Qed.

Section updates_insert.
Context {K : Type} `{Countable K} {X V : Type}.
Variable body : K -> X -> outcome (gmap K V -> gmap K V).
Variable stored : K -> X -> option V.
Hypothesis body_stores : forall k x r,
  match body k x with Ok u => u r | _ => r end
  = match stored k x with Some v => <[ k := v ]> r | None => r end.

Lemma updates_insert_lookup (items : list (K * X)) (res : gmap K V) j :
  NoDup items.*1 ->
  updates body items res !! j
  = match (list_to_map items : gmap K X) !! j with
    | Some x => match stored j x with Some v => Some v | None => res !! j end
    | None => res !! j
    end.
Proof.
  revert res. induction items as [|[k x] items IH]; intros res Hnd.
  - done.
  - rewrite fmap_cons in Hnd. apply NoDup_cons in Hnd as [Hk Hnd].
    rewrite updates_cons, IH by done. rewrite body_stores, list_to_map_cons.
    destruct (decide (k = j)) as [->|Hne].
    + rewrite lookup_insert_eq.
      rewrite (not_elem_of_list_to_map_1 items j) by done.
      destruct (stored j x); [by rewrite lookup_insert_eq|done].
    + rewrite (lookup_insert_ne _ k j) by done.
      destruct (list_to_map items !! j) as [x'|];
        destruct (stored k x); by rewrite ?lookup_insert_ne.
Qed.

Lemma updates_insert_Some (items : list (K * X)) j v :
  NoDup items.*1 ->
  updates body items ∅ !! j = Some v <->
  exists x, (j, x) ∈ items /\ stored j x = Some v.
Proof.
  intros Hnd. rewrite updates_insert_lookup by done. rewrite lookup_empty.
  split.
  - destruct (list_to_map items !! j) as [x|] eqn:Hx; [|done].
    apply elem_of_list_to_map in Hx; [|done].
    destruct (stored j x) eqn:Hs; [|done]. intros [= ->]. by exists x.
  - intros (x&Hin&Hs). apply elem_of_list_to_map in Hin; [|done].
    by rewrite Hin, Hs.
Qed.

End updates_insert.

(** ** The base class and the scalar types *)

Lemma Type_load_no_validators self data :
  _validators self = [] -> Type_load self data = Ok data.
Proof. unfold Type_load. by intros ->. Qed.

Lemma Type_load_returns_data self data r :
  Type_load self data = Ok r -> r = data.
Proof.
  unfold Type_load. destruct (run_validators _ _ _) as [eb| |]; [|done..].
  simpl. destruct (raise_errors eb); [|done..]. simpl. by intros [= <-].
Qed.

Lemma run_validators_accept vs data eb :
  Forall (fun f : validator => f data = Ok tt) vs ->
  run_validators vs data eb = Ok eb.
Proof. induction 1 as [|f vs Hf _ IH]; [done|]. simpl. by rewrite Hf. Qed.

Lemma Type_load_accept self data :
  Forall (fun f : validator => f data = Ok tt) (_validators self) ->
  Type_load self data = Ok data.
Proof. intros Hvs. unfold Type_load. by rewrite run_validators_accept. Qed.

Lemma fail_bind {A B} self k kw (f : A -> outcome B) :
  _fail self k kw ≫= f = _fail self k kw.
Proof.
  unfold _fail. destruct (_error_messages self !! k) as [[template| |]|]; try done.
  by destruct (format template kw).
Qed.

Lemma scalar_load_eq T validate error_messages v :
  load (scalar_init T validate error_messages) v
  = let self := Type_init Type_default_error_messages validate error_messages in
    when (is_missing_or_none v) (_fail self "required" []);;
    when (negb (isinstance v (scalar_kind T)))
         (_fail self "invalid_type" [("expected", scalar_expected T)]);;
    Type_load self v.
Proof. by destruct T. Qed.

Lemma fail_required_default validate :
  _fail (A:=unit) (Type_init Type_default_error_messages validate None) "required" []
  = Invalid (MStr "Value is required").
Proof. done. Qed.

Lemma fail_invalid_type_default validate T :
  _fail (A:=unit) (Type_init Type_default_error_messages validate None)
        "invalid_type" [("expected", scalar_expected T)]
  = Invalid (MStr ("Value should be " +:+ scalar_expected T)).
Proof. by destruct T. Qed.

Lemma Integer_load_never_raises (x : value) (e : exn) : load default_Integer x ≠ Raise e.
Proof. by destruct x. Qed.

(** Claim C4: for each of [Integer], [String] and [Boolean] with the
    default messages, and every value [v] that the extra validators (if
    any) accept, [load] raises the message of kind [required] exactly
    when [v] is [MISSING] or [None], raises the message of kind
    [invalid_type] exactly when [v] is neither and is not of the kind of
    the type, and returns [v] unchanged exactly in the remaining case.
    With other messages the cases are the same: [_fail] with [required],
    else the value, else [_fail] with [invalid_type]. *)
Theorem scalar_load_required_invalid_type_or_value
    (T : scalar) (vs : list validator) (v : value) :
  Forall (fun f : validator => f v = Ok tt) vs ->
  let t := scalar_init T (validate_list vs) None in
  (load t v = Invalid (MStr "Value is required") <-> v = VMissing \/ v = VNone)
  /\ (load t v = Invalid (MStr ("Value should be " +:+ scalar_expected T)) <->
        v ≠ VMissing /\ v ≠ VNone /\ isinstance v (scalar_kind T) = false)
  /\ (load t v = Ok v <->
        v ≠ VMissing /\ v ≠ VNone /\ isinstance v (scalar_kind T) = true)
  /\ (forall error_messages,
        let self := Type_init Type_default_error_messages (validate_list vs)
                              error_messages in
        load (scalar_init T (validate_list vs) error_messages) v
        = if is_missing_or_none v then _fail self "required" []
          else if isinstance v (scalar_kind T) then Ok v
          else _fail self "invalid_type" [("expected", scalar_expected T)]).
Proof.
  intros Hvs t.
  assert (forall error_messages,
            let self := Type_init Type_default_error_messages (validate_list vs)
                                  error_messages in
            load (scalar_init T (validate_list vs) error_messages) v
            = if is_missing_or_none v then _fail self "required" []
              else if isinstance v (scalar_kind T) then Ok v
              else _fail self "invalid_type" [("expected", scalar_expected T)])
    as Hbranch.
  { intros em self. rewrite scalar_load_eq. cbv zeta. fold self.
    destruct (is_missing_or_none v); simpl; [apply fail_bind|].
    destruct (isinstance v (scalar_kind T)); simpl; [|apply fail_bind].
    by apply Type_load_accept. }
  cut ((load t v = Invalid (MStr "Value is required") <-> v = VMissing \/ v = VNone)
       /\ (load t v = Invalid (MStr ("Value should be " +:+ scalar_expected T)) <->
             v ≠ VMissing /\ v ≠ VNone /\ isinstance v (scalar_kind T) = false)
       /\ (load t v = Ok v <->
             v ≠ VMissing /\ v ≠ VNone /\ isinstance v (scalar_kind T) = true)).
  { intros (?&?&?). by split_and!. }
  clear Hbranch.
  unfold t. rewrite scalar_load_eq. cbv zeta.
  rewrite fail_required_default, fail_invalid_type_default.
  rewrite Type_load_accept by done.
  assert (is_missing_or_none v = true <-> v = VMissing \/ v = VNone) as Hmn.
  { destruct v; simpl; split; (done || by intros [|] || by auto). }
  assert (MStr "Value is required"
          ≠ MStr ("Value should be " +:+ scalar_expected T)) as Hdiff.
  { by destruct T. }
  destruct (is_missing_or_none v) eqn:Hm; simpl.
  - assert (v = VMissing \/ v = VNone) as Hv by by apply Hmn.
    split_and!.
    + done.
    + split; [intros Heq; destruct Hdiff; congruence|].
      intros (?&?&_). by destruct Hv.
    + split; [done|]. intros (?&?&_). by destruct Hv.
  - assert (v ≠ VMissing /\ v ≠ VNone) as [??].
    { split; intros ->; done. }
    assert (~ (v = VMissing \/ v = VNone)) by by intros [|].
    destruct (isinstance v (scalar_kind T)) eqn:Hi; simpl.
    + split_and!.
      * done.
      * split; [done|]. by intros (_&_&?).
      * done.
    + split_and!.
      * split; [|done]. intros Heq. destruct Hdiff. congruence.
      * done.
      * split; [done|]. by intros (_&_&?).
Qed.

(** [Integer().load("x")] *)
Lemma scalar_load_witness :
  Forall (fun f : validator => f (VStr "x") = Ok tt) []
  /\ load (Integer_init (validate_list []) None) (VStr "x")
     = Invalid (MStr "Value should be integer").
Proof.
  split; [constructor|].
  destruct (scalar_load_required_invalid_type_or_value
              scalar_Integer [] (VStr "x")) as (_&[_ Hinvalid]&_);
    [constructor|].
  by apply Hinvalid.
Defined.

(** Claim C10: [Integer.load] and [Integer.dump] accept [True] and [False]
    and return them unchanged, because a boolean passes the integer
    membership test, while [Boolean.load] rejects every integer that is
    not a boolean with the message of kind [invalid_type]. *)
Theorem Integer_accepts_booleans (b : bool) :
  load default_Integer (VBool b) = Ok (VBool b)
  /\ dump default_Integer (VBool b) = Ok (VBool b)
  /\ isinstance (VBool b) int_types = true
  /\ (forall validate error_messages,
        load (Integer_init validate error_messages) (VBool b)
        = Type_load (Type_init Type_default_error_messages validate error_messages)
                    (VBool b)
        /\ dump (Integer_init validate error_messages) (VBool b) = Ok (VBool b))
  /\ (forall z, isinstance (VInt z) [class_bool] = false
        /\ load default_Boolean (VInt z) = Invalid (MStr "Value should be boolean")
        /\ forall validate error_messages,
             load (Boolean_init validate error_messages) (VInt z)
             = _fail (Type_init Type_default_error_messages validate
                                error_messages)
                     "invalid_type" [("expected", "boolean")]).
Proof.
  split_and!; try done.
  intros z. split_and!; try done.
  intros validate error_messages. apply fail_bind.
Qed.

(** ** [List] *)

#[global] Instance index_key_inj : Inj (=) (=) index_key.
Proof. intros i j [= Hij]. lia. Qed.

Lemma elem_of_enumerate {X} (l : list X) i x :
  (i, x) ∈ enumerate l <-> l !! i = Some x.
Proof.
  unfold enumerate. rewrite elem_of_lookup_imap. split.
  - by intros (?&?&[= <- <-]&?).
  - intros ?. by exists i, x.
Qed.

Lemma NoDup_enumerate {X} (l : list X) : NoDup (enumerate l).*1.
Proof.
  unfold enumerate. rewrite fmap_imap.
  rewrite (imap_ext _ (fun i _ => i)) by done.
  rewrite imap_seq_0, list_fmap_id. apply NoDup_seq.
Qed.

(** Claim C5: when every element of the input list either loads or is
    invalid, and at least one is invalid, [List.load] raises one tree
    whose entries are exactly the failing positions, each with the
    messages of its element: a failure at one index does not hide a later
    one. *)
Theorem List_load_reports_every_failing_index
    (self : Type_attrs) (item_type : ty) (l : list value) :
  (forall x e, x ∈ l -> load item_type x ≠ Raise e) ->
  (exists i x m, l !! i = Some x /\ load item_type x = Invalid m) ->
  exists tree,
    load (List_ self item_type) (VList l) = Invalid (MDict tree)
    /\ forall j m, tree !! j = Some m <->
         exists i x, j = index_key i /\ l !! i = Some x
                     /\ load item_type x = Invalid m.
Proof.
  intros Hnr (i0&x0&m0&Hi0&Hm0).
  set (body := List_try (load item_type)).
  assert (Hbody : forall idx x,
             body idx x = match load item_type x with
                          | Ok v => Ok (fun items => (items ++ [v])%list)
                          | Invalid m => Invalid m
                          | Raise e => Raise e
                          end).
  { intros idx x. unfold body, List_try. simpl. by destruct (load item_type x). }
  destruct (for_each_keyed body index_key _ (enumerate l) new_builder [] ∅)
    as (eb&tree&Hrun&Hh&Htree).
  - apply NoDup_enumerate.
  - intros k x e Hin%elem_of_enumerate. rewrite Hbody.
    pose proof (Hnr x e (list_elem_of_lookup_2 _ _ _ Hin)) as Hx.
    destruct (load item_type x); [done..|]. intros [= ->]. by apply Hx.
  - apply holds_new.
  - intros. apply lookup_empty.
  - exists tree.
    assert (Hchar : forall j m, tree !! j = Some m <->
              exists i x, j = index_key i /\ l !! i = Some x
                          /\ load item_type x = Invalid m).
    { intros j m. rewrite Htree, lookup_empty. split.
      - intros [?|(k&x&Hin%elem_of_enumerate&<-&Hb)]; [done|].
        exists k, x. split_and!; [done..|].
        rewrite Hbody in Hb. destruct (load item_type x); by simplify_eq.
      - intros (i&x&->&Hi&Hm). right. exists i, x.
        split_and!; [by apply elem_of_enumerate|done|].
        by rewrite Hbody, Hm. }
    split; [|done].
    assert (tree ≠ ∅) as Hne.
    { intros ->. specialize (Hchar (index_key i0) m0).
      rewrite lookup_empty in Hchar. destruct Hchar as [_ Hc].
      discriminate Hc. by exists i0, x0. }
    change (load (List_ self item_type) (VList l))
      with (List_load self (load item_type) (VList l)).
    unfold List_load. simpl.
    change (for_each _ record_at_index (enumerate l) new_builder [])
      with (for_each body (record_at_key index_key) (enumerate l) new_builder []).
    rewrite Hrun. simpl.
    rewrite (raise_errors_holds _ _ Hh), decide_False by done. done.
Qed.

(** [List(Integer()).load([1, "x", 3, "y"])] *)
Lemma List_load_witness :
  exists tree,
    load (List_init default_Integer validate_None None)
         (VList [VInt 1; VStr "x"; VInt 3; VStr "y"]) = Invalid (MDict tree)
    /\ tree !! KInt 1 = Some (MStr "Value should be integer")
    /\ tree !! KInt 3 = Some (MStr "Value should be integer").
Proof.
  destruct (List_load_reports_every_failing_index
              (Type_init Type_default_error_messages validate_None None)
              default_Integer [VInt 1; VStr "x"; VInt 3; VStr "y"])
    as (tree&Hload&Htree).
  - intros x e _. apply Integer_load_never_raises.
  - by exists 1, (VStr "x"), (MStr "Value should be integer").
  - exists tree. split_and!; [done| |].
    + apply Htree. by exists 1, (VStr "x").
    + apply Htree. by exists 3, (VStr "y").
Defined.

(** ** [Tuple] *)

(** The first iteration of the loop of [Tuple.load] looks up [result.add]. *)
Lemma Tuple_load_nonempty self t ts x xs :
  length ts = length xs ->
  load (Tuple self (t :: ts)) (VList (x :: xs)) = Raise AttributeError.
Proof.
  intros Hlen.
  change (load (Tuple self (t :: ts)) (VList (x :: xs)))
    with (Tuple_load self (load <$> t :: ts) (VList (x :: xs))).
  unfold Tuple_load. simpl.
  rewrite length_fmap, Hlen, bool_decide_eq_true_2 by done. done.
Qed.

(** Claim C1: [validate] returns a mapping and never raises.  The code
    does not meet it: for a [Tuple] with at least one item type and a
    list of the same length, whatever the item types and the elements
    are, [validate] lets the [AttributeError] of [Tuple.load] through. *)
Theorem validate_Tuple_raises_AttributeError
    (self : Type_attrs) (t : ty) (x : value) (rest : list (ty * value)) :
  validate (Tuple self (t :: rest.*1)) (VList (x :: rest.*2))
  = Raise AttributeError.
Proof.
  unfold validate. rewrite Tuple_load_nonempty; [done|].
  by rewrite !length_fmap.
Qed.

(** Claim C2: [Tuple.load] loads each element with the item type at its
    position, records failures by index and returns the converted
    sequence.  The code does not meet it: for every [Tuple] with at least
    one item type and every list of the same length, [Tuple.load] raises
    [AttributeError] in the first iteration, before any element is
    loaded. *)
Theorem Tuple_load_raises_AttributeError
    (self : Type_attrs) (t : ty) (x : value) (rest : list (ty * value)) :
  load (Tuple self (t :: rest.*1)) (VList (x :: rest.*2)) = Raise AttributeError.
Proof. apply Tuple_load_nonempty. by rewrite !length_fmap. Qed.

(** ** [Dict] *)

Lemma DictWithDefault_get_fmap {A B} (f : A -> B) values default k :
  DictWithDefault_get (f <$> values) (f <$> default) k
  = f <$> DictWithDefault_get values default k.
Proof.
  unfold DictWithDefault_get. rewrite lookup_fmap.
  by destruct (values !! k).
Qed.

(** Claim C9: let no resolved child type raise anything but a validation
    failure.  [Dict.load] builds a mapping [result] with exactly the keys
    that resolve to a type (explicit entry, else default) and load, and a
    tree with exactly the keys that resolve and fail; a key that resolves
    to no type is in neither.  It raises the tree if there is any
    failure, and otherwise returns [result]. *)
Theorem Dict_load_skips_unresolved_keys
    (self : Type_attrs) (values : gmap key ty) (default : option ty)
    (d : gmap key value) :
  (forall k v t e, d !! k = Some v ->
     DictWithDefault_get values default k = Some t -> load t v ≠ Raise e) ->
  exists (result : gmap key value) (tree : gmap key messages),
    (forall k v', result !! k = Some v' <->
       exists v t, d !! k = Some v
                   /\ DictWithDefault_get values default k = Some t
                   /\ load t v = Ok v')
    /\ (forall k m, tree !! k = Some m <->
          exists v t, d !! k = Some v
                      /\ DictWithDefault_get values default k = Some t
                      /\ load t v = Invalid m)
    /\ (forall k, DictWithDefault_get values default k = None ->
          result !! k = None /\ tree !! k = None)
    /\ load (Dict self values default) (VDict d)
       = (if decide (tree = ∅) then Type_load self (VDict result)
          else Invalid (MDict tree))
    /\ (tree = ∅ -> _validators self = [] ->
          load (Dict self values default) (VDict d) = Ok (VDict result))
    /\ (forall r, load (Dict self values default) (VDict d) = Ok r ->
          r = VDict result).
Proof.
  intros Hnr.
  set (resolve := DictWithDefault_get values default) in *.
  set (body := Dict_try (DictWithDefault_get (load <$> values) (load <$> default))).
  set (stored := fun (k : key) (v : value) =>
         match resolve k with
         | Some t => match load t v with Ok v' => Some v' | _ => None end
         | None => None
         end).
  assert (Hbody : forall k v,
            body k v = match resolve k with
                       | None => Ok id
                       | Some t => match load t v with
                                   | Ok v' => Ok (<[ k := v' ]>)
                                   | Invalid m => Invalid m
                                   | Raise e => Raise e
                                   end
                       end).
  { intros k v. unfold body, Dict_try.
    rewrite DictWithDefault_get_fmap. fold (resolve k).
    destruct (resolve k) as [t|]; [|done]. simpl. by destruct (load t v). }
  assert (Hstored : forall k x (r : gmap key value),
            match body k x with Ok u => u r | _ => r end
            = match stored k x with Some v => <[ k := v ]> r | None => r end).
  { intros k x r. rewrite Hbody. unfold stored.
    destruct (resolve k) as [t|]; [|done]. by destruct (load t x). }
  destruct (for_each_keyed body id _ (map_to_list d) new_builder ∅ ∅)
    as (eb&tree&Hrun&Hh&Htree).
  - apply NoDup_fst_map_to_list.
  - intros k x e Hin%elem_of_map_to_list. rewrite Hbody.
    destruct (resolve k) as [t|] eqn:Ht; [|done].
    pose proof (Hnr k x t e Hin Ht) as Hx.
    destruct (load t x); [done..|]. intros [= ->]. by apply Hx.
  - apply holds_new.
  - intros. apply lookup_empty.
  - set (result := updates body (map_to_list d) ∅) in *.
    assert (Hres : forall k v', result !! k = Some v' <->
              exists v t, d !! k = Some v /\ resolve k = Some t
                          /\ load t v = Ok v').
    { intros k v'. unfold result.
      rewrite (updates_insert_Some body stored Hstored)
        by apply NoDup_fst_map_to_list.
      unfold stored. split.
      - intros (x&Hin%elem_of_map_to_list&Hs).
        destruct (resolve k) as [t|]; [|done].
        exists x, t. split_and!; [done..|].
        destruct (load t x); by simplify_eq.
      - intros (v&t&Hd&Ht&Hl). exists v.
        split; [by apply elem_of_map_to_list|]. by rewrite Ht, Hl. }
    assert (Herr : forall k m, tree !! k = Some m <->
              exists v t, d !! k = Some v /\ resolve k = Some t
                          /\ load t v = Invalid m).
    { intros k m. rewrite Htree, lookup_empty. split.
      - intros [?|(k'&x&Hin%elem_of_map_to_list&<-&Hb)]; [done|].
        rewrite Hbody in Hb. simpl in *.
        destruct (resolve k') as [t|]; [|done].
        exists x, t. split_and!; [done..|].
        destruct (load t x); by simplify_eq.
      - intros (v&t&Hd&Ht&Hl). right. exists k, v.
        split_and!; [by apply elem_of_map_to_list|done|].
        by rewrite Hbody, Ht, Hl. }
    assert (Hload : load (Dict self values default) (VDict d)
                    = (if decide (tree = ∅) then Type_load self (VDict result)
                       else Invalid (MDict tree))).
    { change (load (Dict self values default) (VDict d))
        with (Dict_load self
                (DictWithDefault_get (load <$> values) (load <$> default))
                (VDict d)).
      unfold Dict_load. simpl.
      change (for_each _ (record_at_key id) (iteritems d) new_builder ∅)
        with (for_each body (record_at_key id) (map_to_list d) new_builder ∅).
      rewrite Hrun. simpl. rewrite (raise_errors_holds _ _ Hh).
      by destruct (decide (tree = ∅)). }
    exists result, tree. split_and!; [done|done| |done| |].
    + intros k Hk. split.
      * apply eq_None_not_Some. intros [v' (v&t&_&Ht&_)%Hres]. congruence.
      * apply eq_None_not_Some. intros [m (v&t&_&Ht&_)%Herr]. congruence.
    + intros -> Hv. rewrite Hload, decide_True by done.
      by apply Type_load_no_validators.
    + intros r. rewrite Hload. destruct (decide (tree = ∅)); [|done].
      apply Type_load_returns_data.
Qed.

(** [Dict({"a": Integer()}).load({"a": 1, "b": 2})] *)
Lemma Dict_load_witness :
  exists result,
    load (Dict (Type_init Type_default_error_messages validate_None None)
               {[ KStr "a" := default_Integer ]} None)
         (VDict {[ KStr "a" := VInt 1; KStr "b" := VInt 2 ]}) = Ok (VDict result)
    /\ result !! KStr "a" = Some (VInt 1)
    /\ result !! KStr "b" = None.
Proof.
  destruct (Dict_load_skips_unresolved_keys
              (Type_init Type_default_error_messages validate_None None)
              {[ KStr "a" := default_Integer ]} None
              {[ KStr "a" := VInt 1; KStr "b" := VInt 2 ]})
    as (result&tree&Hres&Htree&Hskip&_&Hok&_).
  - intros k v t e _ Hget. unfold DictWithDefault_get in Hget.
    destruct (decide (k = KStr "a")) as [->|Hne].
    + rewrite lookup_singleton_eq in Hget. injection Hget as <-.
      apply Integer_load_never_raises.
    + by rewrite lookup_singleton_ne in Hget.
  - exists result. split_and!.
    + apply Hok; [|done]. apply map_eq. intros k. rewrite lookup_empty.
      apply eq_None_not_Some. intros [m (v&t&Hd&Hget&Hl)%Htree].
      unfold DictWithDefault_get in Hget.
      destruct (decide (k = KStr "a")) as [->|Hne].
      * rewrite lookup_singleton_eq in Hget. injection Hget as <-.
        rewrite lookup_insert_eq in Hd. injection Hd as <-. done.
      * by rewrite lookup_singleton_ne in Hget.
    + apply Hres. by exists (VInt 1), default_Integer.
    + by apply Hskip.
Defined.

(** Claim C6: each [Dict] instance owns its own key-to-type mapping.  The
    code does not meet it: two instances built by [Dict(Integer())] and
    [Dict(String())] hold the same [values] object, so an entry set
    through the first is seen by the second, whose [load] then checks
    the key [k] as a boolean instead of a string. *)
Theorem Dict_instances_share_default_values :
  let d1 := Dict_init (inl default_Integer) validate_None None in
  let d2 := Dict_init (inl default_String) validate_None None in
  let st := DictWithDefault.imported in
  let st' := DictWithDefault.setitem st (value_types d1) (KStr "k") default_Boolean in
  DictWithDefault.values (value_types d1) = DictWithDefault.values (value_types d2)
  /\ DictWithDefault.get st (value_types d2) (KStr "k") = Some default_String
  /\ DictWithDefault.get st' (value_types d2) (KStr "k") = Some default_Boolean
  /\ load (Dict_in st d2) (VDict {[ KStr "k" := VStr "a" ]})
     = Ok (VDict {[ KStr "k" := VStr "a" ]})
  /\ load (Dict_in st' d2) (VDict {[ KStr "k" := VStr "a" ]})
     = Invalid (MDict {[ KStr "k" := MStr "Value should be boolean" ]}).
Proof. split_and!; by vm_compute. Qed.

(** ** [Object] *)

Lemma in_fields_fmap {A B} (f : A -> B) (fields : gmap string A) k :
  in_fields (f <$> fields) k = in_fields fields k.
Proof.
  destruct k as [z|s]; [done|]. simpl. rewrite lookup_fmap.
  apply bool_decide_ext. by rewrite fmap_is_Some.
Qed.

Lemma in_fields_KStr {F} (fields : gmap string F) name :
  in_fields fields (KStr name) = true <-> is_Some (fields !! name).
Proof. simpl. by rewrite bool_decide_eq_true. Qed.

Lemma elem_of_keys {A} (d : gmap key A) k :
  k ∈ (map_to_list d).*1 <-> is_Some (d !! k).
Proof.
  rewrite list_elem_of_fmap. split.
  - intros ([k' x]&->&Hin%elem_of_map_to_list). by exists x.
  - intros [x Hx]. exists (k, x). split; [done|]. by apply elem_of_map_to_list.
Qed.

(** The loop over the input keys records the unknown ones. *)
Lemma report_unknown_keyed {F} self (fields : gmap string F) msg
    (names : list key) eb d :
  _error_messages self !! "unknown" = Some msg ->
  NoDup names ->
  holds eb d ->
  (forall k, k ∈ names -> in_fields fields k = false -> d !! k = None) ->
  exists eb' d',
    report_unknown self fields names eb = Ok eb'
    /\ holds eb' d'
    /\ forall j m, d' !! j = Some m <->
         d !! j = Some m \/ (j ∈ names /\ in_fields fields j = false /\ m = msg).
Proof.
  intros Hmsg. revert eb d.
  induction names as [|k names IH]; intros eb d Hnd Heb Hfresh.
  - exists eb, d. split_and!; [done..|]. intros j m. split; [by left|].
    intros [?|[Hin _]]; [done|]. by apply elem_of_nil in Hin.
  - apply NoDup_cons in Hnd as [Hk Hnd]. simpl.
    destruct (in_fields fields k) eqn:Hf.
    + destruct (IH eb d Hnd Heb) as (eb'&d'&Hrun&Hh&Hd').
      { intros k' Hin. apply Hfresh. by right. }
      exists eb', d'. split_and!; [done..|]. intros j m. rewrite Hd'. split.
      * intros [?|(Hin&?&?)]; [by left|right]. split_and!; [by right|done..].
      * intros [?|(Hin&Hj&?)]; [by left|right].
        apply elem_of_cons in Hin as [->|Hin]; [congruence|done].
    + rewrite Hmsg.
      destruct (IH (add_error eb k msg) (<[ k := msg ]> d) Hnd)
        as (eb'&d'&Hrun&Hh&Hd').
      { apply holds_add_error; [done|]. apply Hfresh; [by left|done]. }
      { intros k' Hin Hk'. rewrite lookup_insert_ne by (by intros ->).
        apply Hfresh; [by right|done]. }
      exists eb', d'. split_and!; [done..|]. intros j m. rewrite Hd', lookup_insert.
      destruct (decide (k = j)) as [<-|Hne].
      * rewrite Hfresh by (done || by left). split.
        -- intros [[= <-]|(Hin&?&?)]; right; (split_and!; [by left|done..]).
        -- intros [?|(_&_&->)]; [done|by left].
      * split.
        -- intros [?|(Hin&?&?)]; [by left|right]. split_and!; [by right|done..].
        -- intros [?|(Hin&?&?)]; [by left|right].
           apply elem_of_cons in Hin as [->|Hin]; [done|done].
Qed.

Lemma report_unknown_all_known {F} self (fields : gmap string F)
    (names : list key) eb :
  (forall k, k ∈ names -> in_fields fields k = true) ->
  report_unknown self fields names eb = Ok eb.
Proof.
  induction names as [|k names IH]; intros Hall; [done|].
  simpl. rewrite Hall by by left. apply IH. intros k' Hin. apply Hall. by right.
Qed.

Lemma ne_MISSING_true v : ne_MISSING v = true <-> v ≠ VMissing.
Proof. by destruct v. Qed.

Lemma Object_try_eq source name convert :
  Object_try source name convert
  = match convert name source with
    | Ok v => Ok (fun result =>
                    if ne_MISSING v then <[ name := v ]> result else result)
    | Invalid m => Invalid m
    | Raise e => Raise e
    end.
Proof. unfold Object_try. by destruct (convert name source). Qed.

Lemma Object_try_stores source name convert (r : gmap string value) :
  match Object_try source name convert with Ok u => u r | _ => r end
  = match Object_stored source name convert with
    | Some v => <[ name := v ]> r
    | None => r
    end.
Proof.
  rewrite Object_try_eq. unfold Object_stored.
  destruct (convert name source) as [v| |]; [|done..]. by destruct (ne_MISSING v).
Qed.

Lemma data_get_dict_value (m : gmap string value) name :
  data_get (dict_value m) name = from_option id VMissing (m !! name).
Proof.
  unfold data_get, dict_value. cbn [dict_items].
  by rewrite (lookup_kmap KStr).
Qed.

Lemma Object_unknown_message validate error_messages :
  _error_messages (Type_init Object_default_error_messages validate error_messages)
    !! "unknown" = Some (unknown_message error_messages).
Proof.
  unfold Type_init, unknown_message. cbn [_error_messages].
  rewrite lookup_union.
  replace (Object_default_error_messages !! "unknown")
    with (Some (MStr "Unknown field")) by done.
  destruct error_messages as [em|]; simpl.
  - by destruct (em !! "unknown").
  - by rewrite lookup_empty.
Qed.

(** [Object.load] on a mapping, when no field raises anything but a
    validation failure. *)
Lemma Object_load_spec self (fields : gmap string field) constructor
    (allow_extra_fields : bool) msg (d : gmap key value) :
  _error_messages self !! "unknown" = Some msg ->
  (forall name f e, fields !! name = Some f ->
     Field_load f name (VDict d) ≠ Raise e) ->
  exists (result : gmap string value) (tree : gmap key messages),
    (forall name v, result !! name = Some v <->
       exists f, fields !! name = Some f
                 /\ Field_load f name (VDict d) = Ok v /\ v ≠ VMissing)
    /\ (forall j m, tree !! j = Some m <->
          (exists name f, j = KStr name /\ fields !! name = Some f
                          /\ Field_load f name (VDict d) = Invalid m)
          \/ (allow_extra_fields = false /\ is_Some (d !! j)
              /\ in_fields fields j = false /\ m = msg))
    /\ load (Object self fields constructor allow_extra_fields) (VDict d)
       = (if decide (tree = ∅)
          then Type_load self (dict_value result);; constructor result
          else Invalid (MDict tree)).
Proof.
  intros Hmsg Hnr.
  set (field_loads := Field_load <$> fields).
  set (body := Object_try (VDict d)).
  assert (Hitems : forall name fl, (name, fl) ∈ map_to_list field_loads <->
            exists f, fields !! name = Some f /\ fl = Field_load f).
  { intros name fl. rewrite elem_of_map_to_list. unfold field_loads.
    rewrite lookup_fmap_Some. split; intros (f&?&?); by exists f. }
  destruct (for_each_keyed body KStr _ (map_to_list field_loads)
              new_builder ∅ ∅) as (eb1&tree1&Hrun1&Hh1&Htree1).
  { apply NoDup_fst_map_to_list. }
  { intros name fl e (f&Hf&->)%Hitems. unfold body. rewrite Object_try_eq.
    pose proof (Hnr name f e Hf) as Hx.
    destruct (Field_load f name (VDict d)); [done..|].
    intros [= ->]. by apply Hx. }
  { apply holds_new. }
  { intros. apply lookup_empty. }
  set (result := updates body (map_to_list field_loads) ∅) in *.
  assert (Hres : forall name v, result !! name = Some v <->
            exists f, fields !! name = Some f
                      /\ Field_load f name (VDict d) = Ok v /\ v ≠ VMissing).
  { intros name v. unfold result, body.
    rewrite (updates_insert_Some _ _ (Object_try_stores (VDict d)))
      by apply NoDup_fst_map_to_list.
    unfold Object_stored. split.
    - intros (fl&(f&Hf&->)%Hitems&Hs). exists f. split; [done|].
      destruct (Field_load f name (VDict d)) as [v'| |]; [|done..].
      destruct (ne_MISSING v') eqn:Hv'; [|done].
      apply ne_MISSING_true in Hv'. by simplify_eq.
    - intros (f&Hf&Hl&Hv%ne_MISSING_true). exists (Field_load f).
      split; [apply Hitems; by exists f|]. by rewrite Hl, Hv. }
  assert (Htree1' : forall j m, tree1 !! j = Some m <->
            exists name f, j = KStr name /\ fields !! name = Some f
                           /\ Field_load f name (VDict d) = Invalid m).
  { intros j m. rewrite Htree1, lookup_empty. split.
    - intros [?|(name&fl&(f&Hf&->)%Hitems&<-&Hb)]; [done|].
      exists name, f. split_and!; [done..|].
      unfold body in Hb. rewrite Object_try_eq in Hb.
      destruct (Field_load f name (VDict d)); by simplify_eq.
    - intros (name&f&->&Hf&Hl). right. exists name, (Field_load f).
      split_and!; [apply Hitems; by exists f|done|].
      unfold body. by rewrite Object_try_eq, Hl. }
  assert (exists eb tree,
            (if negb allow_extra_fields
             then report_unknown self field_loads (map_to_list d).*1 eb1
             else Ok eb1) = Ok eb
            /\ holds eb tree
            /\ forall j m, tree !! j = Some m <->
                 tree1 !! j = Some m
                 \/ (allow_extra_fields = false /\ is_Some (d !! j)
                     /\ in_fields fields j = false /\ m = msg))
    as (eb&tree&Hrun2&Hh&Htree).
  { destruct allow_extra_fields; simpl.
    - exists eb1, tree1. split_and!; [done..|].
      intros j m. split; [by left|]. by intros [?|(?&_)].
    - destruct (report_unknown_keyed self field_loads msg
                  (map_to_list d).*1 eb1 tree1 Hmsg) as (eb&tree&Hrun&Hh&Htree).
      + apply NoDup_fst_map_to_list.
      + done.
      + intros k _ Hk. apply eq_None_not_Some.
        intros [m (name&f&->&Hf&_)%Htree1'].
        unfold field_loads in Hk. rewrite in_fields_fmap in Hk.
        assert (in_fields fields (KStr name) = true) by by apply in_fields_KStr.
        congruence.
      + exists eb, tree. split_and!; [done..|]. intros j m. rewrite Htree.
        unfold field_loads. rewrite in_fields_fmap, elem_of_keys. split.
        -- intros [?|(?&?&?)]; [by left|by right].
        -- intros [?|(_&?&?&?)]; [by left|by right]. }
  exists result, tree. split_and!; [done| |].
  - intros j m. rewrite Htree, Htree1'. done.
  - change (load (Object self fields constructor allow_extra_fields) (VDict d))
      with (Object_load self field_loads constructor allow_extra_fields (VDict d)).
    unfold Object_load. simpl.
    change (for_each _ _ (iteritems field_loads) new_builder ∅)
      with (for_each body (record_at_key KStr) (map_to_list field_loads)
              new_builder ∅).
    rewrite Hrun1. simpl.
    change (iteritems d) with (map_to_list d). rewrite Hrun2. simpl.
    rewrite (raise_errors_holds _ _ Hh). by destruct (decide (tree = ∅)).
Qed.

(** Claim C8: let no field of the schema raise anything but a validation
    failure on the input mapping.  With [allow_extra_fields] false,
    [Object.load] records the message of kind [unknown] under every input
    key that is not a declared field name, next to the failures of the
    fields, and raises that tree as soon as there is such a key.  With
    [allow_extra_fields] true the tree holds the failures of the fields
    only, and nothing under such a key. *)
Theorem Object_load_unknown_fields
    (fields : gmap string (field + ty))
    (constructor : gmap string value -> outcome value)
    (default_field_type : ty -> field)
    (validate : validate_arg) (error_messages : option (gmap string messages))
    (d : gmap key value) :
  let S := Object_init fields constructor default_field_type in
  let unknown k := is_Some (d !! k) /\ in_fields fields k = false in
  let field_error j m :=
    exists name f, j = KStr name /\ fields !! name = Some f
      /\ Field_load (as_field default_field_type f) name (VDict d) = Invalid m in
  (forall name f e, fields !! name = Some f ->
     Field_load (as_field default_field_type f) name (VDict d) ≠ Raise e) ->
  (exists tree,
     (forall k, unknown k -> tree !! k = Some (unknown_message error_messages))
     /\ (forall j m, tree !! j = Some m <->
           field_error j m
           \/ (unknown j /\ m = unknown_message error_messages))
     /\ ((exists k, unknown k) ->
           load (S false validate error_messages) (VDict d)
           = Invalid (MDict tree)))
  /\ (exists tree result,
        (forall k, unknown k -> tree !! k = None)
        /\ (forall j m, tree !! j = Some m <-> field_error j m)
        /\ load (S true validate error_messages) (VDict d)
           = (if decide (tree = ∅)
              then Type_load (Type_init Object_default_error_messages
                                validate error_messages) (dict_value result);;
                   constructor result
              else Invalid (MDict tree))).
Proof.
  intros S unknown field_error Hnr.
  set (self := Type_init Object_default_error_messages validate error_messages).
  set (fields' := as_field default_field_type <$> fields).
  assert (Hnr' : forall name f e, fields' !! name = Some f ->
            Field_load f name (VDict d) ≠ Raise e).
  { intros name f e. unfold fields'. rewrite lookup_fmap_Some.
    intros (f0&<-&Hf0). by apply Hnr. }
  assert (Hfe : forall j m,
            (exists name f, j = KStr name /\ fields' !! name = Some f
                            /\ Field_load f name (VDict d) = Invalid m)
            <-> field_error j m).
  { intros j m. unfold field_error, fields'. split.
    - intros (name&f&->&Hf&Hl). apply lookup_fmap_Some in Hf as (f0&<-&Hf0).
      by exists name, f0.
    - intros (name&f0&->&Hf0&Hl). exists name, (as_field default_field_type f0).
      split_and!; [done| |done]. rewrite lookup_fmap, Hf0. done. }
  split.
  - destruct (Object_load_spec self fields' constructor false
                (unknown_message error_messages) d)
      as (result&tree&_&Htree&Hload); [apply Object_unknown_message|done|].
    assert (Hchar : forall j m, tree !! j = Some m <->
              field_error j m
              \/ (unknown j /\ m = unknown_message error_messages)).
    { intros j m. rewrite Htree, Hfe. unfold unknown, fields'.
      rewrite in_fields_fmap. split.
      - intros [?|(_&?&?&?)]; [by left|by right].
      - intros [?|[[??]?]]; [by left|by right]. }
    exists tree. split_and!; [|done|].
    + intros k Hk. apply Hchar. by right.
    + intros [k Hk]. unfold S, Object_init. fold self fields'. rewrite Hload.
      rewrite decide_False; [done|]. intros ->.
      assert (∅ !! k = Some (unknown_message error_messages)) as Hin
        by (apply Hchar; by right).
      by rewrite lookup_empty in Hin.
  - destruct (Object_load_spec self fields' constructor true
                (unknown_message error_messages) d)
      as (result&tree&_&Htree&Hload); [apply Object_unknown_message|done|].
    assert (Hchar : forall j m, tree !! j = Some m <-> field_error j m).
    { intros j m. rewrite Htree, Hfe. split; [|by left].
      intros [?|(?&_)]; done. }
    exists tree, result. split_and!; [|done|done].
    intros k [_ Hk]. apply eq_None_not_Some.
    intros [m (name&f&->&Hf&_)%Hchar].
    assert (in_fields fields (KStr name) = true) by by apply in_fields_KStr.
    congruence.
Qed.

(** [Object({"x": Integer()}, allow_extra_fields=False).load({"x": 1, "y": 2})] *)
Lemma Object_load_unknown_fields_witness :
  exists tree,
    load (x_schema false) (VDict {[ KStr "x" := VInt 1; KStr "y" := VInt 2 ]})
    = Invalid (MDict tree)
    /\ tree !! KStr "y" = Some (MStr "Unknown field").
Proof.
  destruct (Object_load_unknown_fields
              {[ "x" := inr default_Integer ]} dict (fun t => AttributeField t None)
              validate_None None
              {[ KStr "x" := VInt 1; KStr "y" := VInt 2 ]})
    as [(tree&Hunknown&_&Hload) _].
  - intros name f e [<- <-]%lookup_singleton_Some. by vm_compute.
  - assert (is_Some (({[ KStr "x" := VInt 1; KStr "y" := VInt 2 ]}
                        : gmap key value) !! KStr "y")
            /\ in_fields ({[ "x" := inr default_Integer ]} : gmap string (field + ty))
                         (KStr "y") = false) as Hy.
    { split; [by exists (VInt 2)|by vm_compute]. }
    exists tree. split.
    + apply Hload. by exists (KStr "y").
    + by apply Hunknown.
Defined.

(** Claim C3: [Object.dump] records the failure of a field under the name
    of that field and raises the aggregated tree.  The code does not meet
    it: when the field [x] fails (a string where an integer is expected,
    or no attribute [x] at all) [Object.dump] raises [NameError] instead
    of a validation failure keyed by [x]. *)
Theorem Object_dump_field_failure_raises_NameError :
  dump (x_schema true) (VObj {[ "x" := VStr "a" ]}) = Raise NameError
  /\ dump (x_schema true) (VObj ∅) = Raise NameError
  /\ dump default_Integer (VStr "a") = Invalid (MStr "Value should be integer")
  /\ dump default_Integer VMissing = Invalid (MStr "Value is required").
Proof. split_and!; by vm_compute. Qed.

(** Claim C7 as stated, for every constructor, is false: with the default
    constructor [dict], [load] after [dump] of a record with the integer
    attribute [x] gives a plain mapping, not the record. *)
Lemma Object_roundtrip_needs_constructor :
  ~ (forall (self : Type_attrs) (fields : gmap string field)
            (constructor : gmap string value -> outcome value)
            (allow_extra_fields : bool) (attrs : gmap string value),
       let S := Object self fields constructor allow_extra_fields in
       let r := VObj attrs in
       let field_values := filter (fun kv => is_Some (fields !! kv.1)) attrs in
       (forall name f, fields !! name = Some f ->
          exists t a v p,
            f = AttributeField t a /\ or_name a name = name
            /\ attrs !! name = Some v /\ v ≠ VMissing
            /\ dump t v = Ok p /\ p ≠ VMissing /\ load t p = Ok v) ->
       Type_load self (dict_value field_values) = Ok (dict_value field_values) ->
       dump S r ≫= load S = Ok r).
Proof.
  intros Hclaim.
  specialize (Hclaim (Type_init Object_default_error_messages validate_None None)
                     {[ "x" := AttributeField default_Integer None ]} dict true
                     {[ "x" := VInt 1 ]}).
  cbv zeta in Hclaim.
  assert (dump (x_schema true) (VObj {[ "x" := VInt 1 ]}) ≫= load (x_schema true)
          = Ok (VDict {[ KStr "x" := VInt 1 ]})) as Hrun by by vm_compute.
  assert (Ok (VDict {[ KStr "x" := VInt 1 ]}) = Ok (VObj {[ "x" := VInt 1 ]}))
    as Hbad; [|done].
  rewrite <- Hrun. apply Hclaim; [|by vm_compute].
  intros name f [<- <-]%lookup_singleton_Some.
  exists default_Integer, None, (VInt 1), (VInt 1). split_and!; by vm_compute.
Qed.

(** Claim C7, amended: let every field of [S] be an attribute field that
    reads the attribute named like the field, and let [r] be a record on
    which every such attribute is present, is dumped by its type to a
    value other than [MISSING], and is loaded back from it.  If the extra
    validators of [S] accept the mapping of the field values of [r] and
    the constructor of [S] applied to these field values returns [r],
    then [S.load(S.dump(r))] returns [r]. *)
Theorem Object_load_dump_roundtrip
    (self : Type_attrs) (fields : gmap string field)
    (constructor : gmap string value -> outcome value)
    (allow_extra_fields : bool) (attrs : gmap string value) :
  let S := Object self fields constructor allow_extra_fields in
  let r := VObj attrs in
  let field_values := filter (fun kv => is_Some (fields !! kv.1)) attrs in
  (forall name f, fields !! name = Some f ->
     exists t a v p,
       f = AttributeField t a /\ or_name a name = name
       /\ attrs !! name = Some v /\ v ≠ VMissing
       /\ dump t v = Ok p /\ p ≠ VMissing /\ load t p = Ok v) ->
  Type_load self (dict_value field_values) = Ok (dict_value field_values) ->
  constructor field_values = Ok r ->
  dump S r ≫= load S = Ok r.
Proof.
  intros S r field_values Hfields Hvalid Hctor.
  (* dump *)
  set (field_dumps := Field_dump <$> fields).
  assert (Hd_items : forall name fd, (name, fd) ∈ map_to_list field_dumps <->
            exists f, fields !! name = Some f /\ fd = Field_dump f).
  { intros name fd. rewrite elem_of_map_to_list. unfold field_dumps.
    rewrite lookup_fmap_Some. split; intros (f&?&?); by exists f. }
  assert (Hd_field : forall name f, fields !! name = Some f ->
            exists v p, attrs !! name = Some v /\ v ≠ VMissing /\ p ≠ VMissing
                        /\ Field_dump f name r = Ok p
                        /\ forall data, data_get data name = p ->
                             Field_load f name data = Ok v).
  { intros name f (t&a&v&p&->&Ha&Hv&Hvm&Hdump&Hpm&Hload)%Hfields.
    exists v, p. split_and!; [done..| |].
    - simpl. rewrite Ha. unfold r. simpl. by rewrite Hv.
    - intros data Hdata. simpl. by rewrite Hdata. }
  set (dumped := updates (Object_try r) (map_to_list field_dumps) ∅).
  assert (Hdump : dump S r = Ok (dict_value dumped)).
  { change (dump S r) with (Object_dump self field_dumps r).
    unfold Object_dump. simpl.
    rewrite for_each_all_ok.
    - done.
    - intros name fd (f&Hf&->)%Hd_items.
      destruct (Hd_field name f Hf) as (v&p&_&_&_&Hp&_).
      rewrite Object_try_eq, Hp. eauto. }
  assert (Hdumped : forall name p, dumped !! name = Some p <->
            exists f, fields !! name = Some f /\ Field_dump f name r = Ok p).
  { intros name p. unfold dumped.
    rewrite (updates_insert_Some _ _ (Object_try_stores r))
      by apply NoDup_fst_map_to_list.
    unfold Object_stored. split.
    - intros (fd&(f&Hf&->)%Hd_items&Hs). exists f. split; [done|].
      destruct (Field_dump f name r) as [p'| |]; [|done..].
      destruct (ne_MISSING p'); by simplify_eq.
    - intros (f&Hf&Hp). exists (Field_dump f).
      split; [apply Hd_items; by exists f|].
      destruct (Hd_field name f Hf) as (v&p'&_&_&Hpm%ne_MISSING_true&Hp'&_).
      rewrite Hp. rewrite Hp' in Hp. simplify_eq. by rewrite Hpm. }
  (* load *)
  set (field_loads := Field_load <$> fields).
  assert (Hl_items : forall name fl, (name, fl) ∈ map_to_list field_loads <->
            exists f, fields !! name = Some f /\ fl = Field_load f).
  { intros name fl. rewrite elem_of_map_to_list. unfold field_loads.
    rewrite lookup_fmap_Some. split; intros (f&?&?); by exists f. }
  assert (Hl_field : forall name f, fields !! name = Some f ->
            exists v, attrs !! name = Some v /\ v ≠ VMissing
                      /\ Field_load f name (dict_value dumped) = Ok v).
  { intros name f Hf.
    destruct (Hd_field name f Hf) as (v&p&Hv&Hvm&_&Hp&Hl).
    exists v. split_and!; [done..|]. apply Hl.
    rewrite data_get_dict_value.
    assert (dumped !! name = Some p) as -> by (apply Hdumped; by exists f).
    done. }
  set (loaded := updates (Object_try (dict_value dumped))
                         (map_to_list field_loads) ∅).
  assert (Hloaded : loaded = field_values).
  { apply map_eq. intros name. apply option_eq. intros v.
    unfold loaded, field_values.
    rewrite (updates_insert_Some _ _ (Object_try_stores (dict_value dumped)))
      by apply NoDup_fst_map_to_list.
    rewrite map_lookup_filter_Some. unfold Object_stored. simpl. split.
    - intros (fl&(f&Hf&->)%Hl_items&Hs).
      destruct (Hl_field name f Hf) as (v'&Hv'&_&Hl). rewrite Hl in Hs.
      destruct (ne_MISSING v'); by simplify_eq.
    - intros [Hv [f Hf]]. exists (Field_load f).
      split; [apply Hl_items; by exists f|].
      destruct (Hl_field name f Hf) as (v'&Hv'&Hvm%ne_MISSING_true&Hl).
      rewrite Hl, Hvm. congruence. }
  rewrite Hdump. simpl.
  change (load S (dict_value dumped))
    with (Object_load self field_loads constructor allow_extra_fields
            (dict_value dumped)).
  unfold Object_load. simpl.
  rewrite for_each_all_ok.
  - simpl.
    change (updates _ (iteritems (Field_load <$> fields)) ∅) with loaded.
    assert (report_unknown self (Field_load <$> fields)
              (iteritems (kmap KStr dumped)).*1 new_builder = Ok new_builder)
      as Hknown; [apply report_unknown_all_known|].
    + intros k [p Hk]%elem_of_keys.
      apply lookup_kmap_Some in Hk as (name&->&Hname); [|apply _].
      apply Hdumped in Hname as (f&Hf&_).
      rewrite in_fields_fmap. by apply in_fields_KStr.
    + destruct allow_extra_fields; simpl; rewrite ?Hknown; simpl;
        by rewrite Hloaded, Hvalid.
  - intros name fl (f&Hf&->)%Hl_items.
    destruct (Hl_field name f Hf) as (v&_&_&Hl).
    rewrite Object_try_eq. change (VDict (kmap KStr dumped)) with (dict_value dumped).
    rewrite Hl. eauto.
Qed.

(** A schema whose constructor builds the record from its fields. *)
Lemma Object_load_dump_roundtrip_witness :
  let S := Object (Type_init Object_default_error_messages validate_None None)
                  {[ "x" := AttributeField default_Integer None ]}
                  (fun kw => Ok (VObj kw)) false in
  dump S (VObj {[ "x" := VInt 1 ]}) ≫= load S = Ok (VObj {[ "x" := VInt 1 ]}).
Proof.
  apply (Object_load_dump_roundtrip
           (Type_init Object_default_error_messages validate_None None)
           {[ "x" := AttributeField default_Integer None ]}
           (fun kw => Ok (VObj kw)) false {[ "x" := VInt 1 ]}).
  - intros name f [<- <-]%lookup_singleton_Some.
    exists default_Integer, None, (VInt 1), (VInt 1). split_and!; by vm_compute.
  - by vm_compute.
  - by vm_compute.
Defined.

(** * Further properties *)

(** ** [Type]: validators and messages *)

Lemma fail_never_returns {A} self k kw (a : A) : _fail self k kw ≠ Ok a.
Proof.
  unfold _fail. destruct (_error_messages self !! k) as [[template| |]|]; try done.
  by destruct (format template kw).
Qed.

Lemma add_errors_recorded eb m : errors (add_errors eb m) ≠ None.
Proof. done. Qed.

Lemma run_validators_recorded vs data eb eb' :
  run_validators vs data eb = Ok eb' -> errors eb ≠ None -> errors eb' ≠ None.
Proof.
  revert eb. induction vs as [|f vs IH]; intros eb; simpl.
  - by intros [= ->].
  - destruct (f data); [apply IH| |done].
    intros Hrun _. by apply (IH _ Hrun).
Qed.

Lemma run_validators_total vs data eb :
  (forall f e, f ∈ vs -> f data ≠ Raise e) ->
  exists eb', run_validators vs data eb = Ok eb'
    /\ (Forall (accepts data) vs -> eb' = eb)
    /\ (errors eb' = None -> Forall (accepts data) vs).
Proof.
  revert eb. induction vs as [|f vs IH]; intros eb Hnr; simpl.
  - exists eb. split_and!; [done..|]. intros _. constructor.
  - assert (forall f' e, f' ∈ vs -> f' data ≠ Raise e) as Hnr'.
    { intros ?? Hin. apply Hnr. by right. }
    destruct (f data) as [[]|m|e] eqn:Hf.
    + destruct (IH eb Hnr') as (eb'&Hrun&Hall&Hnone). exists eb'.
      split_and!; [done| |].
      * intros Hacc. apply Hall. by apply Forall_cons in Hacc as [_ ?].
      * intros He. constructor; [done|by apply Hnone].
    + destruct (IH (add_errors eb m) Hnr') as (eb'&Hrun&_&_). exists eb'.
      split_and!; [done| |].
      * intros Hacc. apply Forall_cons in Hacc as [Hacc _].
        unfold accepts in Hacc. congruence.
      * intros He. by destruct (run_validators_recorded _ _ _ _ Hrun).
    + exfalso. apply (Hnr f e); [by left|done].
Qed.

(** Property X1: [Type.load], when no extra validator raises anything but
    [ValidationError]: it returns exactly when every validator accepts
    the data, it raises a [ValidationError] as soon as one of them
    rejects it, and what it returns is the data it was given. *)
Theorem Type_load_returns_iff_validators_accept (self : Type_attrs) (data : value) :
  (forall f e, f ∈ _validators self -> f data ≠ Raise e) ->
  (Type_load self data = Ok data <-> Forall (accepts data) (_validators self))
  /\ (~ Forall (accepts data) (_validators self) ->
        exists m, Type_load self data = Invalid m)
  /\ (forall r, Type_load self data = Ok r -> r = data).
Proof.
  intros Hnr.
  destruct (run_validators_total (_validators self) data new_builder Hnr)
    as (eb&Hrun&Hall&Hnone).
  split_and!; [| |apply Type_load_returns_data].
  - split.
    + unfold Type_load. rewrite Hrun. simpl. unfold raise_errors.
      destruct (errors eb) eqn:He; [done|]. intros _. by apply Hnone.
    + intros Hacc. unfold Type_load. by rewrite Hrun, (Hall Hacc).
  - intros Hacc. unfold Type_load. rewrite Hrun. simpl. unfold raise_errors.
    destruct (errors eb) as [m|] eqn:He; [by exists m|]. destruct Hacc. by apply Hnone.
Qed.

Lemma Type_load_returns_iff_validators_accept_witness :
  exists m,
    Type_load (Type_init Type_default_error_messages
                 (validate_list [fun _ => Ok tt; fun _ => Invalid (MStr "odd")])
                 None) (VInt 1)
    = Invalid m.
Proof.
  destruct (Type_load_returns_iff_validators_accept
              (Type_init Type_default_error_messages
                 (validate_list [fun _ => Ok tt; fun _ => Invalid (MStr "odd")])
                 None) (VInt 1)) as (_&Hrej&_).
  - intros f e Hin. simpl in Hin.
    apply elem_of_cons in Hin as [->|Hin]; [done|].
    apply elem_of_cons in Hin as [->|Hin]; [done|].
    by apply elem_of_nil in Hin.
  - apply Hrej. intros Hacc. simpl in Hacc.
    apply Forall_cons in Hacc as [_ Hacc]. apply Forall_cons in Hacc as [Hacc _].
    discriminate Hacc.
Defined.

Lemma format_from_literal kw c rest :
  c ≠ "{"%char -> c ≠ "}"%char ->
  format_from kw None (String c rest) = String c <$> format_from kw None rest.
Proof.
  intros Hl Hr.
  destruct c as [[] [] [] [] [] [] [] []]; try done.
Qed.

Lemma format_no_braces template kw :
  no_braces template = true -> format template kw = Ok template.
Proof.
  unfold format, no_braces. induction template as [|c rest IH]; [done|].
  cbn [list_ascii_of_string forallb].
  intros [[Hl Hr]%andb_prop Hrest]%andb_prop.
  apply negb_true_iff, bool_decide_eq_false in Hl, Hr.
  rewrite format_from_literal by done. by rewrite IH.
Qed.

Lemma fail_plain {A} self k kw m :
  _error_messages self !! k = Some m -> plain m ->
  _fail (A:=A) self k kw = Invalid m.
Proof.
  unfold _fail. intros -> Hm. destruct m as [template| |]; [|done..].
  by rewrite format_no_braces.
Qed.

Lemma Type_init_lookup defaults validate error_messages k :
  _error_messages (Type_init defaults validate error_messages) !! k
  = match error_messages ≫= (.!! k) with
    | Some m => Some m
    | None => defaults !! k
    end.
Proof.
  unfold Type_init. cbn [_error_messages]. rewrite lookup_union.
  destruct error_messages as [em|]; simpl.
  - destruct (em !! k); [|by rewrite (left_id_L None _)].
    by destruct (defaults !! k).
  - rewrite lookup_empty. by rewrite (left_id_L None _).
Qed.

(** Property X2: [_fail] after [Type.__init__]: the message of a kind is the
    entry of [error_messages] when there is one, else the default of the
    class; a message that is not a template (no braces, or not a string)
    is raised as it is; a kind with no message at all raises
    [ValueError]; and [_fail] never returns. *)
Theorem fail_uses_overrides_then_defaults
    (defaults : gmap string messages) (validate : validate_arg)
    (error_messages : option (gmap string messages)) (k : string) (kw : kwargs) :
  let self := Type_init defaults validate error_messages in
  (forall m, error_messages ≫= (.!! k) = Some m -> plain m ->
     _fail (A:=value) self k kw = Invalid m)
  /\ (forall m, error_messages ≫= (.!! k) = None -> defaults !! k = Some m ->
        plain m -> _fail (A:=value) self k kw = Invalid m)
  /\ (error_messages ≫= (.!! k) = None -> defaults !! k = None ->
        _fail (A:=value) self k kw = Raise ValueError)
  /\ (forall r : value, _fail self k kw ≠ Ok r).
Proof.
  intros self. split_and!.
  - intros m Hm Hp. apply fail_plain; [|done]. unfold self.
    by rewrite Type_init_lookup, Hm.
  - intros m Hm Hd Hp. apply fail_plain; [|done]. unfold self.
    by rewrite Type_init_lookup, Hm.
  - intros Hm Hd. unfold _fail, self. by rewrite Type_init_lookup, Hm, Hd.
  - intros r. apply fail_never_returns.
Qed.

Lemma load_dump_required (t : ty) (v : value) (m : messages) :
  is_Any t = false ->
  is_missing_or_none v = true ->
  _error_messages (attrs_of t) !! "required" = Some m ->
  plain m ->
  load t v = Invalid m /\ dump t v = Invalid m.
Proof.
  intros Ht Hv Hm Hp.
  assert (forall A B (f : A -> outcome B),
            _fail (attrs_of t) "required" [] ≫= f = Invalid m) as Hfail.
  { intros A B f. by rewrite fail_bind, (fail_plain _ _ _ m). }
  destruct t; try done; simpl in Hfail |- *.
  all: unfold Integer_load, Integer_dump, String_load, String_dump,
         Boolean_load, Boolean_dump, List_load, List_dump, Tuple_load,
         Tuple_dump, Dict_load, Dict_dump, Object_load, Object_dump.
  all: rewrite Hv; unfold when at 1; unfold when at 2.
  all: by rewrite !Hfail.
Qed.

(** Property X3: every class but [Any] starts [load] and [dump] with the same
    check: on [MISSING] and on [None] both raise the message of kind
    [required], whatever the children of the descriptor are. *)
Theorem required_is_checked_first (t : ty) (v : value) (m : messages) :
  is_Any t = false ->
  is_missing_or_none v = true ->
  _error_messages (attrs_of t) !! "required" = Some m ->
  plain m ->
  load t v = Invalid m /\ dump t v = Invalid m.
Proof. apply load_dump_required. Qed.

Lemma required_is_checked_first_witness :
  load (List_init default_Integer validate_None None) VNone
  = Invalid (MStr "Value is required")
  /\ dump (List_init default_Integer validate_None None) VNone
     = Invalid (MStr "Value is required").
Proof.
  apply (required_is_checked_first
           (List_init default_Integer validate_None None) VNone
           (MStr "Value is required")); reflexivity.
Defined.

(** ** Scalar types: [dump] *)

Lemma scalar_dump_eq T validate error_messages v :
  dump (scalar_init T validate error_messages) v
  = let self := Type_init Type_default_error_messages validate error_messages in
    if is_missing_or_none v then _fail self "required" []
    else if isinstance v (scalar_kind T) then Ok v
    else _fail self "invalid_type" [("expected", scalar_expected T)].
Proof.
  cbv zeta.
  assert (forall self classes expected,
            (when (is_missing_or_none v) (_fail self "required" []);;
             when (negb (isinstance v classes))
                  (_fail self "invalid_type" [("expected", expected)]);;
             Ok v)
            = if is_missing_or_none v then _fail self "required" []
              else if isinstance v classes then Ok v
              else _fail self "invalid_type" [("expected", expected)]) as Hgen.
  { intros self classes expected.
    destruct (is_missing_or_none v); simpl; [apply fail_bind|].
    destruct (isinstance v classes); simpl; [done|apply fail_bind]. }
  destruct T; apply Hgen.
Qed.

Lemma is_missing_or_none_true v :
  is_missing_or_none v = true <-> v = VMissing \/ v = VNone.
Proof. destruct v; simpl; split; (done || by intros [|] || by auto). Qed.

Lemma three_way_cases (r : outcome value) (v : value) (inst : bool)
    (req bad : messages) :
  req ≠ bad ->
  r = (if is_missing_or_none v then Invalid req
       else if inst then Ok v else Invalid bad) ->
  (r = Invalid req <-> v = VMissing \/ v = VNone)
  /\ (r = Invalid bad <-> v ≠ VMissing /\ v ≠ VNone /\ inst = false)
  /\ (r = Ok v <-> v ≠ VMissing /\ v ≠ VNone /\ inst = true).
Proof.
  intros Hdiff ->. pose proof (is_missing_or_none_true v) as Hmn.
  destruct (is_missing_or_none v).
  - assert (v = VMissing \/ v = VNone) as Hv by by apply Hmn.
    split_and!.
    + done.
    + split; [intros Heq; destruct Hdiff; congruence|].
      intros (?&?&_). by destruct Hv.
    + split; [done|]. intros (?&?&_). by destruct Hv.
  - assert (~ (v = VMissing \/ v = VNone)) as Hv by (intros Hv%Hmn; done).
    assert (v ≠ VMissing /\ v ≠ VNone) as [??] by (split; intros ->; apply Hv; auto).
    destruct inst; split_and!.
    + done.
    + split; [done|]. by intros (_&_&?).
    + done.
    + split; [|done]. intros Heq. destruct Hdiff. congruence.
    + done.
    + split; [done|]. by intros (_&_&?).
Qed.

(** Property X4: [dump] of [Integer], [String] and [Boolean] with the default
    messages raises [required] exactly on [MISSING] and [None], raises
    [invalid_type] exactly on the other values that are not of the kind,
    and returns the value unchanged exactly in the remaining case; the
    extra validators play no part in [dump]. *)
Theorem scalar_dump_required_invalid_type_or_value
    (T : scalar) (validate : validate_arg) (v : value) :
  let t := scalar_init T validate None in
  (dump t v = Invalid (MStr "Value is required") <-> v = VMissing \/ v = VNone)
  /\ (dump t v = Invalid (MStr ("Value should be " +:+ scalar_expected T)) <->
        v ≠ VMissing /\ v ≠ VNone /\ isinstance v (scalar_kind T) = false)
  /\ (dump t v = Ok v <->
        v ≠ VMissing /\ v ≠ VNone /\ isinstance v (scalar_kind T) = true)
  /\ (forall validate' error_messages,
        dump (scalar_init T validate error_messages) v
        = dump (scalar_init T validate' error_messages) v).
Proof.
  intros t.
  cut ((dump t v = Invalid (MStr "Value is required") <-> v = VMissing \/ v = VNone)
       /\ (dump t v = Invalid (MStr ("Value should be " +:+ scalar_expected T)) <->
             v ≠ VMissing /\ v ≠ VNone /\ isinstance v (scalar_kind T) = false)
       /\ (dump t v = Ok v <->
             v ≠ VMissing /\ v ≠ VNone /\ isinstance v (scalar_kind T) = true)).
  { intros (?&?&?). split_and!; [done..|]. intros. by rewrite !scalar_dump_eq. }
  apply three_way_cases; [by destruct T|].
  unfold t. rewrite scalar_dump_eq. cbv zeta. by destruct T.
Qed.

(** Property X5: for a scalar type in any configuration, whatever [load]
    returns is the value it was given, and this value also dumps;
    whatever [dump] returns is the value it was given, it is of the kind
    of the type, and loading it back only runs the extra validators. *)
Theorem scalar_load_and_dump_return_the_value
    (T : scalar) (validate : validate_arg)
    (error_messages : option (gmap string messages)) (v : value) :
  let t := scalar_init T validate error_messages in
  (forall r, load t v = Ok r -> r = v /\ dump t v = Ok v)
  /\ (forall p, dump t v = Ok p ->
        p = v /\ isinstance v (scalar_kind T) = true
        /\ load t p
           = Type_load (Type_init Type_default_error_messages validate
                                  error_messages) v).
Proof.
  intros t. unfold t. rewrite scalar_load_eq, scalar_dump_eq. cbv zeta.
  destruct (is_missing_or_none v) eqn:Hm; simpl.
  - split; intros r Hr.
    + rewrite fail_bind in Hr. by apply fail_never_returns in Hr.
    + by apply fail_never_returns in Hr.
  - destruct (isinstance v (scalar_kind T)) eqn:Hi; simpl.
    + split.
      * intros r Hr. split; [|done]. by apply Type_load_returns_data in Hr.
      * intros p [= <-]. split_and!; [done..|].
        rewrite scalar_load_eq. cbv zeta. by rewrite Hm, Hi.
    + split; intros r Hr.
      * rewrite fail_bind in Hr. by apply fail_never_returns in Hr.
      * by apply fail_never_returns in Hr.
Qed.

(** ** [List], [Tuple] and [Dict] *)

Lemma fail_invalid_type_container {A} self expected :
  _error_messages self !! "invalid_type" = Some (MStr "Value should be {expected}") ->
  expected = "list" \/ expected = "dict" ->
  _fail (A:=A) self "invalid_type" [("expected", expected)]
  = Invalid (MStr ("Value should be " +:+ expected)).
Proof. unfold _fail. intros -> [->| ->]; done. Qed.

(** Property X6: with the default template of kind [invalid_type], a value
    that is neither [MISSING] nor [None] and is not a list is rejected
    with "Value should be list" by [List.load], [List.dump] and
    [Tuple.load], and one that is not a mapping with "Value should be
    dict" by [Dict.load], [Dict.dump] and [Object.load]. *)
Theorem containers_reject_other_kinds
    (self : Type_attrs) (v : value) (item_type : ty) (item_types : list ty)
    (values : gmap key ty) (default : option ty) (fields : gmap string field)
    (constructor : gmap string value -> outcome value) (allow_extra_fields : bool) :
  _error_messages self !! "invalid_type" = Some (MStr "Value should be {expected}") ->
  is_missing_or_none v = false ->
  (is_list v = false ->
     load (List_ self item_type) v = Invalid (MStr "Value should be list")
     /\ dump (List_ self item_type) v = Invalid (MStr "Value should be list")
     /\ load (Tuple self item_types) v = Invalid (MStr "Value should be list"))
  /\ (is_dict v = false ->
        load (Dict self values default) v = Invalid (MStr "Value should be dict")
        /\ dump (Dict self values default) v = Invalid (MStr "Value should be dict")
        /\ load (Object self fields constructor allow_extra_fields) v
           = Invalid (MStr "Value should be dict")).
Proof.
  intros Hm Hv.
  assert (forall A B (f : A -> outcome B) expected,
            expected = "list" \/ expected = "dict" ->
            _fail self "invalid_type" [("expected", expected)] ≫= f
            = Invalid (MStr ("Value should be " +:+ expected))) as Hfail.
  { intros A B f expected He. by rewrite fail_bind, fail_invalid_type_container. }
  split; intros Hk; split_and!; simpl.
  all: unfold List_load, List_dump, Tuple_load, Dict_load, Dict_dump, Object_load.
  all: rewrite Hv, Hk; simpl; rewrite Hfail by auto; done.
Qed.

Lemma containers_reject_other_kinds_witness :
  load (List_init default_Integer validate_None None) (VInt 3)
  = Invalid (MStr "Value should be list").
Proof.
  destruct (containers_reject_other_kinds
              (Type_init Type_default_error_messages validate_None None)
              (VInt 3) default_Integer [] ∅ None ∅ dict true)
    as [Hlist _]; [reflexivity..|].
  by destruct Hlist as (Hl&_&_).
Defined.

Lemma List_try_ok f idx x v :
  f x = Ok v -> List_try f idx x = Ok (fun items => (items ++ [v])%list).
Proof. unfold List_try. simpl. by intros ->. Qed.

Lemma List_try_eq f idx x :
  List_try f idx x = match f x with
                     | Ok v => Ok (fun items => (items ++ [v])%list)
                     | Invalid m => Invalid m
                     | Raise e => Raise e
                     end.
Proof. unfold List_try. simpl. by destruct (f x). Qed.

Lemma updates_List_try (f : value -> outcome value) (g : nat -> nat) l vs acc :
  Forall2 (fun x v => f x = Ok v) l vs ->
  updates (List_try f) (imap (fun i x => (g i, x)) l) acc = (acc ++ vs)%list.
Proof.
  intros Hall. revert g acc.
  induction Hall as [|x v l vs Hx _ IH]; intros g acc.
  - by rewrite app_nil_r.
  - rewrite imap_cons, updates_cons, (List_try_ok _ _ _ _ Hx).
    rewrite (IH (g ∘ S)). by rewrite <- app_assoc.
Qed.

Lemma List_loop_all_ok (f : value -> outcome value) handler l vs :
  Forall2 (fun x v => f x = Ok v) l vs ->
  for_each (List_try f) handler (enumerate l) new_builder []
  = Ok (new_builder, vs).
Proof.
  intros Hall. rewrite for_each_all_ok.
  - do 2 f_equal. exact (updates_List_try f id l vs [] Hall).
  - intros k x Hin%elem_of_enumerate.
    destruct (Forall2_lookup_l _ _ _ _ _ Hall Hin) as (v&_&Hv).
    rewrite (List_try_ok _ _ _ _ Hv). eauto.
Qed.

(** Property X7: when every element loads, [List.load] hands the list of the
    loaded elements, in the order and of the length of the input, to the
    extra validators, and returns it when they accept it. *)
Theorem List_load_converts_in_order
    (self : Type_attrs) (item_type : ty) (l vs : list value) :
  Forall2 (fun x v => load item_type x = Ok v) l vs ->
  load (List_ self item_type) (VList l) = Type_load self (VList vs)
  /\ length vs = length l
  /\ (Forall (accepts (VList vs)) (_validators self) ->
        load (List_ self item_type) (VList l) = Ok (VList vs)).
Proof.
  intros Hall.
  assert (load (List_ self item_type) (VList l) = Type_load self (VList vs)) as Hl.
  { change (load (List_ self item_type) (VList l))
      with (List_load self (load item_type) (VList l)).
    unfold List_load. simpl. by rewrite (List_loop_all_ok _ _ l vs). }
  split_and!; [done|by erewrite <- Forall2_length|].
  intros Hacc. rewrite Hl. by apply Type_load_accept.
Qed.

Lemma List_load_converts_in_order_witness :
  load (List_init default_Integer validate_None None) (VList [VInt 1; VInt 2])
  = Ok (VList [VInt 1; VInt 2]).
Proof.
  destruct (List_load_converts_in_order
              (Type_init Type_default_error_messages validate_None None)
              default_Integer [VInt 1; VInt 2] [VInt 1; VInt 2])
    as (_&_&Hok).
  - repeat constructor.
  - apply Hok. constructor.
Defined.

(** The loop of [List.load] and [List.dump] with any item conversion. *)
Lemma List_loop_failures (f : value -> outcome value) (l : list value) :
  (forall x e, x ∈ l -> f x ≠ Raise e) ->
  (exists i x m, l !! i = Some x /\ f x = Invalid m) ->
  exists eb items tree,
    for_each (List_try f) record_at_index (enumerate l) new_builder []
    = Ok (eb, items)
    /\ raise_errors eb = Invalid (MDict tree)
    /\ forall j m, tree !! j = Some m <->
         exists i x, j = index_key i /\ l !! i = Some x /\ f x = Invalid m.
Proof.
  intros Hnr (i0&x0&m0&Hi0&Hm0).
  destruct (for_each_keyed (List_try f) index_key _ (enumerate l)
              new_builder [] ∅) as (eb&tree&Hrun&Hh&Htree).
  - apply NoDup_enumerate.
  - intros k x e Hin%elem_of_enumerate. rewrite List_try_eq.
    pose proof (Hnr x e (list_elem_of_lookup_2 _ _ _ Hin)) as Hx.
    destruct (f x); [done..|]. intros [= ->]. by apply Hx.
  - apply holds_new.
  - intros. apply lookup_empty.
  - assert (Hchar : forall j m, tree !! j = Some m <->
              exists i x, j = index_key i /\ l !! i = Some x /\ f x = Invalid m).
    { intros j m. rewrite Htree, lookup_empty. split.
      - intros [?|(k&x&Hin%elem_of_enumerate&<-&Hb)]; [done|].
        exists k, x. split_and!; [done..|].
        rewrite List_try_eq in Hb. destruct (f x); by simplify_eq.
      - intros (i&x&->&Hi&Hm). right. exists i, x.
        split_and!; [by apply elem_of_enumerate|done|].
        by rewrite List_try_eq, Hm. }
    exists eb, (updates (List_try f) (enumerate l) []), tree.
    split_and!; [done| |done].
    rewrite (raise_errors_holds _ _ Hh), decide_False; [done|].
    intros ->. specialize (Hchar (index_key i0) m0).
    rewrite lookup_empty in Hchar. destruct Hchar as [_ Hc].
    discriminate Hc. by exists i0, x0.
Qed.

(** Property X8: [List.dump], when no element raises anything but
    [ValidationError]: it returns the list of the dumped elements when
    all of them dump, and otherwise raises one tree whose entries are
    exactly the failing positions. *)
Theorem List_dump_converts_or_reports_by_index
    (self : Type_attrs) (item_type : ty) (l : list value) :
  (forall x e, x ∈ l -> dump item_type x ≠ Raise e) ->
  (forall ps, Forall2 (fun x p => dump item_type x = Ok p) l ps ->
     dump (List_ self item_type) (VList l) = Ok (VList ps))
  /\ ((exists i x m, l !! i = Some x /\ dump item_type x = Invalid m) ->
        exists tree,
          dump (List_ self item_type) (VList l) = Invalid (MDict tree)
          /\ forall j m, tree !! j = Some m <->
               exists i x, j = index_key i /\ l !! i = Some x
                           /\ dump item_type x = Invalid m).
Proof.
  intros Hnr.
  change (dump (List_ self item_type) (VList l))
    with (List_dump self (dump item_type) (VList l)).
  unfold List_dump. simpl. split.
  - intros ps Hall. by rewrite (List_loop_all_ok _ _ l ps).
  - intros Hbad.
    destruct (List_loop_failures (dump item_type) l Hnr Hbad)
      as (eb&items&tree&Hrun&Hraise&Htree).
    exists tree. split; [|done]. rewrite Hrun. simpl. by rewrite Hraise.
Qed.

Lemma List_dump_converts_or_reports_by_index_witness :
  exists tree,
    dump (List_init default_Integer validate_None None) (VList [VInt 1; VStr "x"])
    = Invalid (MDict tree)
    /\ tree !! KInt 1 = Some (MStr "Value should be integer").
Proof.
  destruct (List_dump_converts_or_reports_by_index
              (Type_init Type_default_error_messages validate_None None)
              default_Integer [VInt 1; VStr "x"]) as [_ Hbad].
  - intros x e _. by destruct x.
  - destruct Hbad as (tree&Hdump&Htree).
    + by exists 1, (VStr "x"), (MStr "Value should be integer").
    + exists tree. split; [done|]. apply Htree. by exists 1, (VStr "x").
Defined.

(** Property X9: when every element of a list is dumped by the item type to
    a value that loads back to it, and the extra validators accept the
    list, [List.load] after [List.dump] returns the list. *)
Theorem List_load_after_dump
    (self : Type_attrs) (item_type : ty) (l : list value) :
  Forall (fun x => exists p, dump item_type x = Ok p /\ load item_type p = Ok x) l ->
  Forall (accepts (VList l)) (_validators self) ->
  dump (List_ self item_type) (VList l) ≫= load (List_ self item_type)
  = Ok (VList l).
Proof.
  intros Hall Hacc.
  assert (exists ps, Forall2 (fun x p => dump item_type x = Ok p) l ps
                     /\ Forall2 (fun p x => load item_type p = Ok x) ps l)
    as (ps&Hd&Hl).
  { clear Hacc. induction Hall as [|x l (p&Hp&Hx) _ IH].
    - exists []. by split; constructor.
    - destruct IH as (ps&Hd&Hl). exists (p :: ps). by split; constructor. }
  change (dump (List_ self item_type) (VList l))
    with (List_dump self (dump item_type) (VList l)).
  unfold List_dump. simpl. rewrite (List_loop_all_ok _ _ l ps) by done. simpl.
  change (List_load self (load item_type) (VList ps) = Ok (VList l)).
  unfold List_load. simpl. rewrite (List_loop_all_ok _ _ ps l) by done. simpl.
  by apply Type_load_accept.
Qed.

Lemma List_load_after_dump_witness :
  dump (List_init default_String validate_None None) (VList [VStr "a"; VStr "b"])
  ≫= load (List_init default_String validate_None None)
  = Ok (VList [VStr "a"; VStr "b"]).
Proof.
  apply (List_load_after_dump
           (Type_init Type_default_error_messages validate_None None)
           default_String [VStr "a"; VStr "b"]).
  - repeat constructor; by eexists.
  - constructor.
Defined.

Lemma append_empty_r (n : string) : n +:+ "" = n.
Proof.
  induction n as [|c n IH]; [done|].
  change (String c (n +:+ "") = String c n). by rewrite IH.
Qed.

Lemma format_invalid_length (n : string) :
  format "Value length should be {expected_length}" [("expected_length", n)]
  = Ok ("Value length should be " +:+ n).
Proof.
  unfold format.
  change (Ok ("Value length should be " +:+ (n +:+ ""))
          = Ok ("Value length should be " +:+ n)).
  by rewrite append_empty_r.
Qed.

(** Property X10: [Tuple.load] on a list of another length than the item
    types raises the message of kind [invalid_length] with the expected
    length, and it returns only when there are no item types and the list
    is empty. *)
Theorem Tuple_load_on_lists
    (item_types : list ty) (validate : validate_arg) (l : list value) :
  let t := Tuple_init item_types validate None in
  (length l ≠ length item_types ->
     load t (VList l)
     = Invalid (MStr ("Value length should be " +:+ pretty (length item_types))))
  /\ (forall r, load t (VList l) = Ok r ->
        item_types = [] /\ l = [] /\ r = VList []).
Proof.
  intros t. split.
  - intros Hlen. unfold t, Tuple_init.
    change (load (Tuple ?self item_types) (VList l))
      with (Tuple_load self (load <$> item_types) (VList l)).
    unfold Tuple_load. simpl. rewrite length_fmap.
    rewrite bool_decide_eq_false_2 by done. simpl.
    unfold _fail. replace (_error_messages _ !! "invalid_length")
      with (Some (MStr "Value length should be {expected_length}")) by done.
    by rewrite format_invalid_length.
  - intros r Hr. destruct item_types as [|t0 ts], l as [|x xs].
    + split_and!; [done..|]. by apply Type_load_returns_data in Hr.
    + unfold t, Tuple_init in Hr. by vm_compute in Hr.
    + unfold t, Tuple_init in Hr.
      change (load (Tuple ?self (t0 :: ts)) (VList []))
        with (Tuple_load self (load <$> t0 :: ts) (VList [])) in Hr.
      unfold Tuple_load in Hr. simpl in Hr. rewrite fail_bind in Hr.
      by apply fail_never_returns in Hr.
    + destruct (decide (length ts = length xs)) as [Hlen|Hlen].
      * unfold t, Tuple_init in Hr. by rewrite Tuple_load_nonempty in Hr.
      * unfold t, Tuple_init in Hr.
        change (load (Tuple ?self (t0 :: ts)) (VList (x :: xs)))
          with (Tuple_load self (load <$> t0 :: ts) (VList (x :: xs))) in Hr.
        unfold Tuple_load in Hr. simpl in Hr. rewrite length_fmap in Hr.
        rewrite bool_decide_eq_false_2 in Hr by (intros [= ?]; done).
        simpl in Hr. rewrite fail_bind in Hr. by apply fail_never_returns in Hr.
Qed.

(** Property X11: [Tuple.dump] never returns: after the [required] check it
    reads the name [data], which is not bound, and raises [NameError]. *)
Theorem Tuple_dump_never_returns
    (self : Type_attrs) (item_types : list ty) (v : value) :
  (forall r, dump (Tuple self item_types) v ≠ Ok r)
  /\ (is_missing_or_none v = false ->
        dump (Tuple self item_types) v = Raise NameError).
Proof.
  change (dump (Tuple self item_types) v)
    with (Tuple_dump self (dump <$> item_types) v).
  unfold Tuple_dump. destruct (is_missing_or_none v); simpl.
  - split; [|done]. intros r. rewrite fail_bind. apply fail_never_returns.
  - done.
Qed.

(** The loop of [Dict.load] and [Dict.dump] with any conversion. *)
Lemma Dict_loop_spec (convert : key -> option (value -> outcome value))
    (d : gmap key value) :
  (forall k v c e, d !! k = Some v -> convert k = Some c -> c v ≠ Raise e) ->
  exists eb (result : gmap key value) (tree : gmap key messages),
    for_each (Dict_try convert) (record_at_key id) (iteritems d) new_builder ∅
    = Ok (eb, result)
    /\ raise_errors eb = (if decide (tree = ∅) then Ok tt else Invalid (MDict tree))
    /\ (forall k v', result !! k = Some v' <->
          exists v c, d !! k = Some v /\ convert k = Some c /\ c v = Ok v')
    /\ (forall k m, tree !! k = Some m <->
          exists v c, d !! k = Some v /\ convert k = Some c /\ c v = Invalid m).
Proof.
  intros Hnr.
  set (stored := fun (k : key) (v : value) =>
         match convert k with
         | Some c => match c v with Ok v' => Some v' | _ => None end
         | None => None
         end).
  assert (Hbody : forall k v,
            Dict_try convert k v
            = match convert k with
              | None => Ok id
              | Some c => match c v with
                          | Ok v' => Ok (<[ k := v' ]>)
                          | Invalid m => Invalid m
                          | Raise e => Raise e
                          end
              end).
  { intros k v. unfold Dict_try. destruct (convert k) as [c|]; [|done].
    simpl. by destruct (c v). }
  assert (Hstored : forall k x (r : gmap key value),
            match Dict_try convert k x with Ok u => u r | _ => r end
            = match stored k x with Some v => <[ k := v ]> r | None => r end).
  { intros k x r. rewrite Hbody. unfold stored.
    destruct (convert k) as [c|]; [|done]. by destruct (c x). }
  destruct (for_each_keyed (Dict_try convert) id _ (map_to_list d)
              new_builder ∅ ∅) as (eb&tree&Hrun&Hh&Htree).
  - apply NoDup_fst_map_to_list.
  - intros k x e Hin%elem_of_map_to_list. rewrite Hbody.
    destruct (convert k) as [c|] eqn:Hc; [|done].
    pose proof (Hnr k x c e Hin Hc) as Hx.
    destruct (c x); [done..|]. intros [= ->]. by apply Hx.
  - apply holds_new.
  - intros. apply lookup_empty.
  - exists eb, (updates (Dict_try convert) (map_to_list d) ∅), tree.
    split_and!; [done|by apply raise_errors_holds| |].
    + intros k v'.
      rewrite (updates_insert_Some _ stored Hstored)
        by apply NoDup_fst_map_to_list.
      unfold stored. split.
      * intros (x&Hin%elem_of_map_to_list&Hs).
        destruct (convert k) as [c|]; [|done].
        exists x, c. split_and!; [done..|]. destruct (c x); by simplify_eq.
      * intros (v&c&Hd&Hc&Hl). exists v.
        split; [by apply elem_of_map_to_list|]. by rewrite Hc, Hl.
    + intros k m. rewrite Htree, lookup_empty. split.
      * intros [?|(k'&x&Hin%elem_of_map_to_list&<-&Hb)]; [done|].
        rewrite Hbody in Hb. simpl in *.
        destruct (convert k') as [c|]; [|done].
        exists x, c. split_and!; [done..|]. destruct (c x); by simplify_eq.
      * intros (v&c&Hd&Hc&Hl). right. exists k, v.
        split_and!; [by apply elem_of_map_to_list|done|].
        by rewrite Hbody, Hc, Hl.
Qed.

Lemma DictWithDefault_get_fmap_Some {A B} (f : A -> B) values default k c :
  DictWithDefault_get (f <$> values) (f <$> default) k = Some c <->
  exists t, DictWithDefault_get values default k = Some t /\ c = f t.
Proof.
  rewrite DictWithDefault_get_fmap.
  destruct (DictWithDefault_get values default k) as [t|]; simpl.
  - split; [intros [= <-]; by exists t|]. by intros (?&[= <-]&->).
  - split; [done|]. by intros (?&?&_).
Qed.

(** Property X12: [Dict.dump], when no resolved child type raises anything
    but [ValidationError]: the result has exactly the keys that resolve
    to a type and dump, the tree exactly those that resolve and fail, and
    the tree is raised if it is not empty. *)
Theorem Dict_dump_skips_unresolved_keys
    (self : Type_attrs) (values : gmap key ty) (default : option ty)
    (d : gmap key value) :
  (forall k v t e, d !! k = Some v ->
     DictWithDefault_get values default k = Some t -> dump t v ≠ Raise e) ->
  exists (result : gmap key value) (tree : gmap key messages),
    (forall k p, result !! k = Some p <->
       exists v t, d !! k = Some v
                   /\ DictWithDefault_get values default k = Some t
                   /\ dump t v = Ok p)
    /\ (forall k m, tree !! k = Some m <->
          exists v t, d !! k = Some v
                      /\ DictWithDefault_get values default k = Some t
                      /\ dump t v = Invalid m)
    /\ dump (Dict self values default) (VDict d)
       = (if decide (tree = ∅) then Ok (VDict result) else Invalid (MDict tree)).
Proof.
  intros Hnr.
  destruct (Dict_loop_spec
              (DictWithDefault_get (dump <$> values) (dump <$> default)) d)
    as (eb&result&tree&Hrun&Hraise&Hres&Htree).
  { intros k v c e Hd (t&Ht&->)%DictWithDefault_get_fmap_Some. by eapply Hnr. }
  exists result, tree. split_and!.
  - intros k p. rewrite Hres. split.
    + intros (v&c&Hd&(t&Ht&->)%DictWithDefault_get_fmap_Some&Hc). by exists v, t.
    + intros (v&t&Hd&Ht&Hc). exists v, (dump t). split_and!; [done| |done].
      apply DictWithDefault_get_fmap_Some. by exists t.
  - intros k m. rewrite Htree. split.
    + intros (v&c&Hd&(t&Ht&->)%DictWithDefault_get_fmap_Some&Hc). by exists v, t.
    + intros (v&t&Hd&Ht&Hc). exists v, (dump t). split_and!; [done| |done].
      apply DictWithDefault_get_fmap_Some. by exists t.
  - change (dump (Dict self values default) (VDict d))
      with (Dict_dump self
              (DictWithDefault_get (dump <$> values) (dump <$> default))
              (VDict d)).
    unfold Dict_dump. simpl. rewrite Hrun. simpl. rewrite Hraise.
    by destruct (decide (tree = ∅)).
Qed.

Lemma Dict_dump_skips_unresolved_keys_witness :
  exists result,
    dump (Dict (Type_init Type_default_error_messages validate_None None)
               {[ KStr "a" := default_Integer ]} None)
         (VDict {[ KStr "a" := VInt 1; KStr "b" := VInt 2 ]}) = Ok (VDict result)
    /\ result !! KStr "a" = Some (VInt 1)
    /\ result !! KStr "b" = None.
Proof.
  destruct (Dict_dump_skips_unresolved_keys
              (Type_init Type_default_error_messages validate_None None)
              {[ KStr "a" := default_Integer ]} None
              {[ KStr "a" := VInt 1; KStr "b" := VInt 2 ]})
    as (result&tree&Hres&Htree&Hdump).
  - intros k v t e _ Hget. unfold DictWithDefault_get in Hget.
    destruct (decide (k = KStr "a")) as [->|Hne].
    + rewrite lookup_singleton_eq in Hget. injection Hget as <-. by destruct v.
    + by rewrite lookup_singleton_ne in Hget.
  - assert (tree = ∅) as ->.
    { apply map_eq. intros k. rewrite lookup_empty.
      apply eq_None_not_Some. intros [m (v&t&Hd&Hget&Hl)%Htree].
      unfold DictWithDefault_get in Hget.
      destruct (decide (k = KStr "a")) as [->|Hne].
      - rewrite lookup_singleton_eq in Hget. injection Hget as <-.
        rewrite lookup_insert_eq in Hd. injection Hd as <-. done.
      - by rewrite lookup_singleton_ne in Hget. }
    exists result. split_and!; [done| |].
    + apply Hres. by exists (VInt 1), default_Integer.
    + apply eq_None_not_Some. intros [p (v&t&_&Hget&_)%Hres]. done.
Defined.

(** Property X13: when every key of a mapping resolves to a type that dumps
    its value to something that loads back to it, and the extra
    validators accept the mapping, [Dict.load] after [Dict.dump] returns
    the mapping. *)
Theorem Dict_load_after_dump
    (self : Type_attrs) (values : gmap key ty) (default : option ty)
    (d : gmap key value) :
  (forall k v, d !! k = Some v ->
     exists t p, DictWithDefault_get values default k = Some t
                 /\ dump t v = Ok p /\ load t p = Ok v) ->
  Forall (accepts (VDict d)) (_validators self) ->
  dump (Dict self values default) (VDict d) ≫= load (Dict self values default)
  = Ok (VDict d).
Proof.
  intros Hall Hacc.
  destruct (Dict_loop_spec
              (DictWithDefault_get (dump <$> values) (dump <$> default)) d)
    as (eb&ps&tree&Hrun&Hraise&Hps&Htree).
  { intros k v c e Hd (t&Ht&->)%DictWithDefault_get_fmap_Some.
    destruct (Hall k v Hd) as (t'&p&Ht'&Hp&_). congruence. }
  assert (tree = ∅) as ->.
  { apply map_eq. intros k. rewrite lookup_empty. apply eq_None_not_Some.
    intros [m (v&c&Hd&(t&Ht&->)%DictWithDefault_get_fmap_Some&Hc)%Htree].
    destruct (Hall k v Hd) as (t'&p&Ht'&Hp&_). congruence. }
  assert (Hps' : forall k p, ps !! k = Some p ->
            exists v t, d !! k = Some v
                        /\ DictWithDefault_get values default k = Some t
                        /\ load t p = Ok v).
  { intros k p (v&c&Hd&(t&Ht&->)%DictWithDefault_get_fmap_Some&Hc)%Hps.
    destruct (Hall k v Hd) as (t'&p'&Ht'&Hp&Hl). exists v, t.
    split_and!; [done..|]. congruence. }
  destruct (Dict_loop_spec
              (DictWithDefault_get (load <$> values) (load <$> default)) ps)
    as (eb2&result&tree2&Hrun2&Hraise2&Hres&Htree2).
  { intros k p c e Hp (t&Ht&->)%DictWithDefault_get_fmap_Some.
    destruct (Hps' k p Hp) as (v&t'&_&Ht'&Hl). congruence. }
  assert (tree2 = ∅) as ->.
  { apply map_eq. intros k. rewrite lookup_empty. apply eq_None_not_Some.
    intros [m (p&c&Hp&(t&Ht&->)%DictWithDefault_get_fmap_Some&Hc)%Htree2].
    destruct (Hps' k p Hp) as (v&t'&_&Ht'&Hl). congruence. }
  assert (result = d) as ->.
  { apply map_eq. intros k. apply option_eq. intros v. rewrite Hres. split.
    - intros (p&c&Hp&(t&Ht&->)%DictWithDefault_get_fmap_Some&Hc).
      destruct (Hps' k p Hp) as (v'&t'&Hd&Ht'&Hl). congruence.
    - intros Hd. destruct (Hall k v Hd) as (t&p&Ht&Hp&Hl).
      exists p, (load t). split_and!; [| |done].
      + apply Hps. exists v, (dump t). split_and!; [done| |done].
        apply DictWithDefault_get_fmap_Some. by exists t.
      + apply DictWithDefault_get_fmap_Some. by exists t. }
  change (dump (Dict self values default) (VDict d))
    with (Dict_dump self
            (DictWithDefault_get (dump <$> values) (dump <$> default)) (VDict d)).
  unfold Dict_dump. simpl. rewrite Hrun. simpl. rewrite Hraise. simpl.
  change (Dict_load self
            (DictWithDefault_get (load <$> values) (load <$> default)) (VDict ps)
          = Ok (VDict d)).
  unfold Dict_load. simpl. rewrite Hrun2. simpl. rewrite Hraise2. simpl.
  by apply Type_load_accept.
Qed.

Lemma Dict_load_after_dump_witness :
  let S := Dict (Type_init Type_default_error_messages validate_None None)
                ∅ (Some default_Integer) in
  dump S (VDict {[ KStr "a" := VInt 1; KStr "b" := VInt 2 ]}) ≫= load S
  = Ok (VDict {[ KStr "a" := VInt 1; KStr "b" := VInt 2 ]}).
Proof.
  apply (Dict_load_after_dump
           (Type_init Type_default_error_messages validate_None None)
           ∅ (Some default_Integer) {[ KStr "a" := VInt 1; KStr "b" := VInt 2 ]}).
  - intros k v Hd. exists default_Integer, v.
    assert (v = VInt 1 \/ v = VInt 2) as [-> | ->]; [|done..].
    destruct (decide (k = KStr "a")) as [->|Ha].
    + rewrite lookup_insert_eq in Hd. left. congruence.
    + rewrite lookup_insert_ne in Hd by done.
      apply lookup_singleton_Some in Hd as [_ <-]. by right.
  - constructor.
Defined.

(** ** [DictWithDefault] *)

Lemma contents_setitem st d1 d2 k v :
  DictWithDefault.contents (DictWithDefault.setitem st d1 k v) d2
  = if decide (DictWithDefault.values d1 = DictWithDefault.values d2)
    then <[ k := v ]> (DictWithDefault.contents st d2)
    else DictWithDefault.contents st d2.
Proof.
  unfold DictWithDefault.contents, DictWithDefault.setitem. simpl.
  destruct (decide _) as [Heq|Hne].
  - by rewrite <- Heq, lookup_insert_eq.
  - by rewrite lookup_insert_ne.
Qed.

(** Property X14: after [__setitem__] through one [DictWithDefault], [get]
    through any other returns the new type for that key exactly when the
    two hold the same [values] object, and is unchanged otherwise;
    [__len__] grows by one exactly when the key was not set. *)
Theorem DictWithDefault_get_after_setitem
    (st : DictWithDefault.store) (d1 d2 : DictWithDefault.t)
    (k k' : key) (v : ty) :
  DictWithDefault.get (DictWithDefault.setitem st d1 k v) d2 k'
  = (if decide (DictWithDefault.values d1 = DictWithDefault.values d2 /\ k = k')
     then Some v
     else DictWithDefault.get st d2 k')
  /\ DictWithDefault.len_ (DictWithDefault.setitem st d1 k v) d1
     = (if decide (is_Some (DictWithDefault.contents st d1 !! k))
        then DictWithDefault.len_ st d1
        else S (DictWithDefault.len_ st d1)).
Proof.
  split.
  - unfold DictWithDefault.get, DictWithDefault.getitem, DictWithDefault_get.
    rewrite contents_setitem.
    destruct (decide (DictWithDefault.values d1 = DictWithDefault.values d2))
      as [Hv|Hv].
    + destruct (decide (k = k')) as [->|Hk].
      * rewrite lookup_insert_eq. by rewrite decide_True.
      * rewrite lookup_insert_ne by done. rewrite decide_False; [done|].
        by intros [_ ?].
    + rewrite decide_False; [done|]. by intros [? _].
  - unfold DictWithDefault.len_. rewrite contents_setitem, decide_True by done.
    destruct (decide _) as [[t Ht]|Hnone].
    + rewrite <- (insert_delete_id (DictWithDefault.contents st d1) k t) at 2
        by done.
      rewrite <- insert_delete_eq.
      by rewrite !map_size_insert_None by apply lookup_delete_eq.
    + apply map_size_insert_None. by apply eq_None_not_Some.
Qed.

Lemma contents_delitem st d k st' :
  DictWithDefault.delitem st d k = Ok st' ->
  DictWithDefault.contents st' d = delete k (DictWithDefault.contents st d).
Proof.
  unfold DictWithDefault.delitem.
  destruct (DictWithDefault.contents st d !! k); [|done]. intros [= <-].
  unfold DictWithDefault.contents at 1. simpl. by rewrite lookup_insert_eq.
Qed.

(** Property X15: [__delitem__] raises [KeyError] for a key without an
    entry of its own, even when [get] answers the default for it;
    otherwise the key falls back to the default, the other keys keep
    their types and [__len__] shrinks by one. *)
Theorem DictWithDefault_delitem
    (st : DictWithDefault.store) (d : DictWithDefault.t) (k : key) :
  (DictWithDefault.contents st d !! k = None ->
     DictWithDefault.delitem st d k = Raise KeyError)
  /\ (is_Some (DictWithDefault.contents st d !! k) ->
        exists st',
          DictWithDefault.delitem st d k = Ok st'
          /\ DictWithDefault.get st' d k = DictWithDefault.default d
          /\ (forall k', k' ≠ k ->
                DictWithDefault.get st' d k' = DictWithDefault.get st d k')
          /\ S (DictWithDefault.len_ st' d) = DictWithDefault.len_ st d).
Proof.
  split.
  - unfold DictWithDefault.delitem. by intros ->.
  - intros [t Ht].
    assert (exists st', DictWithDefault.delitem st d k = Ok st') as [st' Hdel].
    { unfold DictWithDefault.delitem. rewrite Ht. eauto. }
    exists st'. pose proof (contents_delitem _ _ _ _ Hdel) as Hc.
    split_and!; [done| | |].
    + unfold DictWithDefault.get, DictWithDefault.getitem, DictWithDefault_get.
      by rewrite Hc, lookup_delete_eq.
    + intros k' Hk.
      unfold DictWithDefault.get, DictWithDefault.getitem, DictWithDefault_get.
      by rewrite Hc, lookup_delete_ne.
    + unfold DictWithDefault.len_. rewrite Hc.
      rewrite <- (insert_delete_id (DictWithDefault.contents st d) k t) at 2
        by done.
      by rewrite map_size_insert_None by apply lookup_delete_eq.
Qed.

(** ** [Object] and the fields *)

Lemma for_each_ext {K X R} (body body' : K -> X -> outcome (R -> R)) handler
    (items : list (K * X)) eb res :
  (forall k x, (k, x) ∈ items -> body k x = body' k x) ->
  for_each body handler items eb res = for_each body' handler items eb res.
Proof.
  revert eb res. induction items as [|[k x] items IH]; intros eb res Hext; [done|].
  simpl. rewrite <- (Hext k x) by by left.
  assert (forall k' x', (k', x') ∈ items -> body k' x' = body' k' x') as Hext'.
  { intros ?? Hin. apply Hext. by right. }
  destruct (body k x); [by apply IH| |done].
  destruct (handler k m eb); [by apply IH|done..].
Qed.

(** A loop whose handler raises: it returns only if every body returns,
    a [ValidationError] never leaves it, and the first body that does not
    return decides the exception. *)
Lemma for_each_handler_raises {K X R} (body : K -> X -> outcome (R -> R))
    (e0 : exn) (items : list (K * X)) eb res :
  let handler := fun (_ : K) (_ : messages) (_ : ValidationErrorBuilder) =>
                   Raise (A:=ValidationErrorBuilder) e0 in
  (forall m, for_each body handler items eb res ≠ Invalid m)
  /\ (forall eb' res', for_each body handler items eb res = Ok (eb', res') ->
        eb' = eb)
  /\ ((forall k x e, (k, x) ∈ items -> body k x ≠ Raise e) ->
      (exists k x m, (k, x) ∈ items /\ body k x = Invalid m) ->
      for_each body handler items eb res = Raise e0)
  /\ (forall e, (forall k x, (k, x) ∈ items ->
                   (exists u, body k x = Ok u) \/ body k x = Raise e) ->
      (exists k x, (k, x) ∈ items /\ body k x = Raise e) ->
      for_each body handler items eb res = Raise e).
Proof.
  intros handler. revert res.
  induction items as [|[k x] items IH]; intros res.
  - split_and!; [done|by intros ?? [= <- _]| |].
    + intros _ (?&?&?&Hin&_). by apply elem_of_nil in Hin.
    + intros e _ (?&?&Hin&_). by apply elem_of_nil in Hin.
  - simpl. destruct (body k x) as [u|m|e] eqn:Hb.
    + destruct (IH (u res)) as (IH1&IH0&IH2&IH3). split_and!; [done|done| |].
      * intros Hnr (k'&x'&m&Hin&Hm). apply IH2.
        -- intros ??? Hin'. apply Hnr. by right.
        -- apply elem_of_cons in Hin as [[= -> ->]|Hin]; [congruence|].
           by exists k', x', m.
      * intros e Hall (k'&x'&Hin&He). apply IH3.
        -- intros ?? Hin'. apply Hall. by right.
        -- apply elem_of_cons in Hin as [[= -> ->]|Hin]; [congruence|].
           by exists k', x'.
    + split_and!; [done|done|done|].
      intros e Hall _. destruct (Hall k x) as [[u Hu]|He]; [by left|congruence..].
    + split_and!; [done|done| |].
      * intros Hnr _. exfalso. apply (Hnr k x e); [by left|done].
      * intros e' Hall _. destruct (Hall k x) as [[u Hu]|He]; [by left|congruence..].
Qed.

Lemma Field_dump_items (fields : gmap string field) name fd :
  (name, fd) ∈ map_to_list (Field_dump <$> fields) <->
  exists f, fields !! name = Some f /\ fd = Field_dump f.
Proof.
  rewrite elem_of_map_to_list, lookup_fmap_Some.
  split; intros (f&?&?); by exists f.
Qed.

Lemma Field_load_items (fields : gmap string field) name fl :
  (name, fl) ∈ map_to_list (Field_load <$> fields) <->
  exists f, fields !! name = Some f /\ fl = Field_load f.
Proof.
  rewrite elem_of_map_to_list, lookup_fmap_Some.
  split; intros (f&?&?); by exists f.
Qed.

Lemma Object_dump_eq self fields constructor allow_extra_fields obj :
  is_missing_or_none obj = false ->
  dump (Object self fields constructor allow_extra_fields) obj
  = ('(errors_builder, result) ←
       for_each (Object_try obj)
                (fun _ _ _ => Raise NameError)
                (map_to_list (Field_dump <$> fields)) new_builder ∅;
     raise_errors errors_builder;;
     Ok (dict_value result)).
Proof.
  intros Hobj.
  change (dump (Object self fields constructor allow_extra_fields) obj)
    with (Object_dump self (Field_dump <$> fields) obj).
  unfold Object_dump. by rewrite Hobj.
Qed.

(** Property X16: when every field loads and every input key is
    declared or extra keys are allowed, [Object.load] runs the extra
    validators on, and calls the constructor with, exactly the declared
    fields whose [load] returned something other than [MISSING]: no
    other input key reaches the constructor. *)
Theorem Object_load_constructs_from_the_loaded_fields
    (fields : gmap string (field + ty))
    (constructor : gmap string value -> outcome value)
    (default_field_type : ty -> field) (allow_extra_fields : bool)
    (validate : validate_arg) (error_messages : option (gmap string messages))
    (d : gmap key value) :
  (forall name f, fields !! name = Some f ->
     exists v, Field_load (as_field default_field_type f) name (VDict d) = Ok v) ->
  allow_extra_fields = true
  \/ (forall k, is_Some (d !! k) -> in_fields fields k = true) ->
  exists result : gmap string value,
    load (Object_init fields constructor default_field_type allow_extra_fields
                      validate error_messages) (VDict d)
    = (Type_load (Type_init Object_default_error_messages validate error_messages)
                 (dict_value result);;
       constructor result)
    /\ (forall name v, result !! name = Some v <->
          exists f, fields !! name = Some f
            /\ Field_load (as_field default_field_type f) name (VDict d) = Ok v
            /\ v ≠ VMissing)
    /\ (forall name, is_Some (result !! name) -> is_Some (fields !! name)).
Proof.
  intros Hall Hextra.
  set (self := Type_init Object_default_error_messages validate error_messages).
  set (fields' := as_field default_field_type <$> fields).
  assert (Hf' : forall name f', fields' !! name = Some f' <->
            exists f, fields !! name = Some f /\ f' = as_field default_field_type f).
  { intros name f'. unfold fields'. rewrite lookup_fmap_Some.
    split; intros (f&?&?); by exists f. }
  destruct (Object_load_spec self fields' constructor allow_extra_fields
              (unknown_message error_messages) d)
    as (result&tree&Hres&Htree&Hload); [apply Object_unknown_message| |].
  { intros name f' e (f&Hf&->)%Hf'. destruct (Hall name f Hf) as [v ->]. done. }
  assert (tree = ∅) as ->.
  { apply map_eq. intros j. rewrite lookup_empty. apply eq_None_not_Some.
    intros [m [(name&f'&->&(f&Hf&->)%Hf'&Hm)|(Hallow&Hj&Hunk&_)]%Htree].
    - destruct (Hall name f Hf) as [v Hv]. congruence.
    - destruct Hextra as [?|Hknown]; [congruence|].
      unfold fields' in Hunk. rewrite in_fields_fmap in Hunk.
      rewrite (Hknown j Hj) in Hunk. done. }
  assert (Hres' : forall name v, result !! name = Some v <->
            exists f, fields !! name = Some f
              /\ Field_load (as_field default_field_type f) name (VDict d) = Ok v
              /\ v ≠ VMissing).
  { intros name v. rewrite Hres. split.
    - intros (f'&(f&Hf&->)%Hf'&Hv&Hm). by exists f.
    - intros (f&Hf&Hv&Hm). exists (as_field default_field_type f).
      split_and!; [apply Hf'; by exists f|done..]. }
  exists result. split_and!; [|done|].
  - unfold Object_init. fold self fields'. by rewrite Hload.
  - intros name [v (f&Hf&_)%Hres']. by exists f.
Qed.

Lemma Object_load_constructs_from_the_loaded_fields_witness :
  exists result,
    load (x_schema true) (VDict {[ KStr "x" := VInt 1; KStr "y" := VInt 2 ]})
    = (Type_load (Type_init Object_default_error_messages validate_None None)
                 (dict_value result);;
       dict result)
    /\ result !! "x" = Some (VInt 1)
    /\ result !! "y" = None.
Proof.
  destruct (Object_load_constructs_from_the_loaded_fields
              {[ "x" := inr default_Integer ]} dict (fun t => AttributeField t None)
              true validate_None None
              {[ KStr "x" := VInt 1; KStr "y" := VInt 2 ]})
    as (result&Hload&Hres&Hdom).
  - intros name f [<- <-]%lookup_singleton_Some. by exists (VInt 1).
  - by left.
  - exists result. split_and!; [done| |].
    + apply Hres. exists (inr default_Integer).
      split_and!; [apply lookup_singleton_eq|done..].
    + apply eq_None_not_Some. intros [f Hf]%Hdom.
      by apply lookup_singleton_Some in Hf as [[=] _].
Defined.

(** Property X17: when the input mapping has no entry for an attribute
    field whose type is not [Any], [Object.load] raises a tree with the
    message of kind [required] of that type under the name of the field. *)
Theorem Object_load_reports_a_missing_field
    (fields : gmap string (field + ty))
    (constructor : gmap string value -> outcome value)
    (default_field_type : ty -> field) (allow_extra_fields : bool)
    (validate : validate_arg) (error_messages : option (gmap string messages))
    (d : gmap key value)
    (name : string) (f : field + ty) (field_type : ty)
    (attribute : option string) (m : messages) :
  (forall name f e, fields !! name = Some f ->
     Field_load (as_field default_field_type f) name (VDict d) ≠ Raise e) ->
  fields !! name = Some f ->
  as_field default_field_type f = AttributeField field_type attribute ->
  d !! KStr name = None ->
  is_Any field_type = false ->
  _error_messages (attrs_of field_type) !! "required" = Some m ->
  plain m ->
  exists tree,
    load (Object_init fields constructor default_field_type allow_extra_fields
                      validate error_messages) (VDict d)
    = Invalid (MDict tree)
    /\ tree !! KStr name = Some m.
Proof.
  intros Hnr Hf Hattr Hd Hany Hm Hp.
  set (self := Type_init Object_default_error_messages validate error_messages).
  set (fields' := as_field default_field_type <$> fields).
  destruct (Object_load_spec self fields' constructor allow_extra_fields
              (unknown_message error_messages) d)
    as (result&tree&_&Htree&Hload); [apply Object_unknown_message| |].
  { intros name' f' e. unfold fields'. rewrite lookup_fmap_Some.
    intros (f0&<-&Hf0). by apply Hnr. }
  assert (tree !! KStr name = Some m) as Hin.
  { apply Htree. left. exists name, (AttributeField field_type attribute).
    split_and!; [done| |].
    - unfold fields'. by rewrite lookup_fmap, Hf, <- Hattr.
    - simpl. unfold data_get. simpl. rewrite Hd. simpl.
      by apply load_dump_required. }
  exists tree. split; [|done]. unfold Object_init. fold self fields'.
  rewrite Hload, decide_False; [done|]. intros ->. by rewrite lookup_empty in Hin.
Qed.

Lemma Object_load_reports_a_missing_field_witness :
  exists tree,
    load (x_schema true) (VDict ∅) = Invalid (MDict tree)
    /\ tree !! KStr "x" = Some (MStr "Value is required").
Proof.
  apply (Object_load_reports_a_missing_field
           {[ "x" := inr default_Integer ]} dict (fun t => AttributeField t None)
           true validate_None None ∅ "x" (inr default_Integer)
           default_Integer None (MStr "Value is required")).
  - intros name f e [<- <-]%lookup_singleton_Some. by vm_compute.
  - apply lookup_singleton_eq.
  - reflexivity.
  - apply lookup_empty.
  - reflexivity.
  - reflexivity.
  - reflexivity.
Defined.

(** Property X18: with extra fields allowed, [Object.load] depends on the
    input mapping only through the keys that name attribute fields: two
    mappings that agree on them give the same outcome. *)
Theorem Object_load_reads_only_attribute_field_keys
    (self : Type_attrs) (fields : gmap string field)
    (constructor : gmap string value -> outcome value)
    (d d' : gmap key value) :
  (forall name field_type attribute,
     fields !! name = Some (AttributeField field_type attribute) ->
     d !! KStr name = d' !! KStr name) ->
  load (Object self fields constructor true) (VDict d)
  = load (Object self fields constructor true) (VDict d').
Proof.
  intros Hagree.
  change (Object_load self (Field_load <$> fields) constructor true (VDict d)
          = Object_load self (Field_load <$> fields) constructor true (VDict d')).
  unfold Object_load. simpl.
  rewrite (for_each_ext (Object_try (VDict d)) (Object_try (VDict d'))); [done|].
  intros name fl (f&Hf&->)%Field_load_items. rewrite !Object_try_eq.
  destruct f as [| |field_type attribute| |]; try done.
  simpl. unfold data_get. simpl. by rewrite (Hagree name field_type attribute).
Qed.

Lemma Object_load_reads_only_attribute_field_keys_witness :
  let S := Object (Type_init Object_default_error_messages validate_None None)
                  {[ "x" := AttributeField default_Integer None ]} dict true in
  load S (VDict {[ KStr "x" := VInt 1; KStr "y" := VInt 2 ]})
  = load S (VDict {[ KStr "x" := VInt 1 ]}).
Proof.
  intros S. unfold S. apply Object_load_reads_only_attribute_field_keys.
  intros name field_type attribute [<- _]%lookup_singleton_Some. reflexivity.
Defined.

(** Property X19: when every field dumps, [Object.dump] returns the
    mapping of the declared names to the dumped values, without the
    fields whose value is [MISSING]. *)
Theorem Object_dump_assembles_the_dumped_fields
    (self : Type_attrs) (fields : gmap string field)
    (constructor : gmap string value -> outcome value)
    (allow_extra_fields : bool) (obj : value) :
  is_missing_or_none obj = false ->
  (forall name f, fields !! name = Some f ->
     exists p, Field_dump f name obj = Ok p) ->
  exists result : gmap string value,
    dump (Object self fields constructor allow_extra_fields) obj
    = Ok (dict_value result)
    /\ forall name p, result !! name = Some p <->
         exists f, fields !! name = Some f
                   /\ Field_dump f name obj = Ok p /\ p ≠ VMissing.
Proof.
  intros Hobj Hall. rewrite Object_dump_eq by done.
  exists (updates (Object_try obj) (map_to_list (Field_dump <$> fields)) ∅).
  split.
  - rewrite for_each_all_ok; [done|].
    intros name fd (f&Hf&->)%Field_dump_items.
    destruct (Hall name f Hf) as [p Hp]. rewrite Object_try_eq, Hp. eauto.
  - intros name p.
    rewrite (updates_insert_Some _ _ (Object_try_stores obj))
      by apply NoDup_fst_map_to_list.
    unfold Object_stored. split.
    + intros (fd&(f&Hf&->)%Field_dump_items&Hs). exists f. split; [done|].
      destruct (Field_dump f name obj) as [p'| |]; [|done..].
      destruct (ne_MISSING p') eqn:Hp'; [|done].
      apply ne_MISSING_true in Hp'. by simplify_eq.
    + intros (f&Hf&Hp&Hm%ne_MISSING_true). exists (Field_dump f).
      split; [apply Field_dump_items; by exists f|]. by rewrite Hp, Hm.
Qed.

Lemma Object_dump_assembles_the_dumped_fields_witness :
  exists result,
    dump (Object (Type_init Object_default_error_messages validate_None None)
                 {[ "kind" := ConstantField default_String (VStr "point") ]}
                 dict true) (VObj ∅)
    = Ok (dict_value result)
    /\ result !! "kind" = Some (VStr "point").
Proof.
  destruct (Object_dump_assembles_the_dumped_fields
              (Type_init Object_default_error_messages validate_None None)
              {[ "kind" := ConstantField default_String (VStr "point") ]}
              dict true (VObj ∅)) as (result&Hdump&Hres); [reflexivity| |].
  - intros name f [<- <-]%lookup_singleton_Some. by exists (VStr "point").
  - exists result. split; [done|]. apply Hres.
    exists (ConstantField default_String (VStr "point")).
    split_and!; [apply lookup_singleton_eq|done..].
Defined.

(** Property X20: on an object other than [None] and [MISSING],
    [Object.dump] never raises a [ValidationError]; when a field fails
    validation and no field raises another exception, it raises
    [NameError]. *)
Theorem Object_dump_never_reports_a_validation_failure
    (self : Type_attrs) (fields : gmap string field)
    (constructor : gmap string value -> outcome value)
    (allow_extra_fields : bool) (obj : value) :
  is_missing_or_none obj = false ->
  let S := Object self fields constructor allow_extra_fields in
  (forall m, dump S obj ≠ Invalid m)
  /\ ((forall name f e, fields !! name = Some f ->
         Field_dump f name obj ≠ Raise e) ->
      (exists name f m, fields !! name = Some f
                        /\ Field_dump f name obj = Invalid m) ->
      dump S obj = Raise NameError).
Proof.
  intros Hobj S. unfold S. rewrite Object_dump_eq by done.
  destruct (for_each_handler_raises (Object_try obj) NameError
              (map_to_list (Field_dump <$> fields)) new_builder ∅)
    as (Hnever&Hsame&Hname&_).
  split.
  - intros m.
    destruct (for_each _ _ _ _ _) as [[eb result]|m'|e] eqn:Hrun; simpl.
    + by rewrite (Hsame eb result eq_refl).
    + by destruct (Hnever m').
    + done.
  - intros Hnr (name&f&m&Hf&Hm). rewrite Hname; [done| |].
    + intros k x e (f'&Hf'&->)%Field_dump_items. rewrite Object_try_eq.
      pose proof (Hnr k f' e Hf') as Hx.
      destruct (Field_dump f' k obj); [done..|]. intros [= ->]. by apply Hx.
    + exists name, (Field_dump f), m. split; [apply Field_dump_items; by exists f|].
      by rewrite Object_try_eq, Hm.
Qed.

Lemma Object_dump_never_reports_a_validation_failure_witness :
  dump (x_schema true) (VObj {[ "x" := VStr "a" ]}) = Raise NameError.
Proof.
  destruct (Object_dump_never_reports_a_validation_failure
              (Type_init Object_default_error_messages validate_None None)
              {[ "x" := AttributeField default_Integer None ]} dict true
              (VObj {[ "x" := VStr "a" ]})) as [_ Hname]; [reflexivity|].
  apply Hname.
  - intros name f e [<- <-]%lookup_singleton_Some. by vm_compute.
  - exists "x", (AttributeField default_Integer None),
      (MStr "Value should be integer").
    split; [apply lookup_singleton_eq|by vm_compute].
Defined.

Lemma MethodField_dump_ValueError field_type method name obj :
  hasattr obj (or_name method name) = false
  \/ callable (getattr obj (or_name method name) VMissing) = false ->
  Field_dump (MethodField field_type method) name obj = Raise ValueError.
Proof.
  simpl. destruct (hasattr obj (or_name method name)); simpl.
  - intros [?|Hc]; [done|]. by rewrite Hc.
  - done.
Qed.

(** Property X21: a method field whose object lacks the attribute, or has
    one that is not callable, raises [ValueError], and so does
    [Object.dump] when the other fields dump or raise the same. *)
Theorem MethodField_without_method_raises_ValueError
    (self : Type_attrs) (fields : gmap string field)
    (constructor : gmap string value -> outcome value)
    (allow_extra_fields : bool) (obj : value)
    (name0 : string) (field_type : ty) (method : option string) :
  is_missing_or_none obj = false ->
  fields !! name0 = Some (MethodField field_type method) ->
  hasattr obj (or_name method name0) = false
  \/ callable (getattr obj (or_name method name0) VMissing) = false ->
  (forall name f, fields !! name = Some f ->
     (exists p, Field_dump f name obj = Ok p)
     \/ Field_dump f name obj = Raise ValueError) ->
  Field_dump (MethodField field_type method) name0 obj = Raise ValueError
  /\ dump (Object self fields constructor allow_extra_fields) obj
     = Raise ValueError.
Proof.
  intros Hobj Hf0 Hmiss Hall.
  pose proof (MethodField_dump_ValueError field_type method name0 obj Hmiss) as H0.
  split; [done|]. rewrite Object_dump_eq by done.
  destruct (for_each_handler_raises (Object_try obj) NameError
              (map_to_list (Field_dump <$> fields)) new_builder ∅)
    as (_&_&_&Hraise).
  rewrite (Hraise ValueError); [done| |].
  - intros name fd (f&Hf&->)%Field_dump_items. rewrite Object_try_eq.
    destruct (Hall name f Hf) as [[p ->]| ->]; eauto.
  - exists name0, (Field_dump (MethodField field_type method)).
    split; [apply Field_dump_items; eauto|]. by rewrite Object_try_eq, H0.
Qed.

Lemma MethodField_without_method_raises_ValueError_witness :
  dump (Object (Type_init Object_default_error_messages validate_None None)
               {[ "area" := MethodField default_Integer None ]} dict true)
       (VObj {[ "area" := VInt 6 ]})
  = Raise ValueError.
Proof.
  apply (MethodField_without_method_raises_ValueError
           (Type_init Object_default_error_messages validate_None None)
           {[ "area" := MethodField default_Integer None ]} dict true
           (VObj {[ "area" := VInt 6 ]}) "area" default_Integer None).
  - reflexivity.
  - apply lookup_singleton_eq.
  - right. reflexivity.
  - intros name f [<- <-]%lookup_singleton_Some. right. reflexivity.
Defined.

(** ** [validate] on schemas without [Tuple] *)

Lemma no_raise_bind {A B} (o : outcome A) (f : A -> outcome B) :
  no_raise o -> (forall a, o = Ok a -> no_raise (f a)) -> no_raise (o ≫= f).
Proof.
  intros Ho Hf e. destruct o as [a|m|e']; simpl; [by apply Hf|done|].
  intros [= ->]. by apply (Ho e).
Qed.

Lemma no_raise_map {A B} (o : outcome A) (g : A -> B) :
  no_raise o ->
  no_raise (match o with
            | Ok a => Ok (g a)
            | Invalid m => Invalid m
            | Raise e => Raise e
            end).
Proof. intros Ho e. destruct o as [a|m|e']; [done..|]. intros [= ->]. by apply (Ho e). Qed.

Lemma no_raise_when cond stmt : no_raise stmt -> no_raise (when cond stmt).
Proof. intros Hs. by destruct cond. Qed.

Lemma no_raise_Ok {A} (a : A) : no_raise (Ok a).
Proof. done. Qed.

Lemma no_raise_raise_errors eb : no_raise (raise_errors eb).
Proof. unfold raise_errors. by destruct (errors eb). Qed.

Lemma format_invalid_type (expected : string) :
  format "Value should be {expected}" [("expected", expected)]
  = Ok ("Value should be " +:+ expected).
Proof.
  unfold format.
  change (Ok ("Value should be " +:+ (expected +:+ ""))
          = Ok ("Value should be " +:+ expected)).
  by rewrite append_empty_r.
Qed.

Lemma no_raise_fail_required {A} self :
  quiet_attrs self -> no_raise (_fail (A:=A) self "required" []).
Proof. intros (Hr&_&_) e. unfold _fail. by rewrite Hr. Qed.

Lemma no_raise_fail_invalid_type {A} self expected :
  quiet_attrs self ->
  no_raise (_fail (A:=A) self "invalid_type" [("expected", expected)]).
Proof. intros (_&Hi&_) e. unfold _fail. by rewrite Hi, format_invalid_type. Qed.

Lemma no_raise_Type_load self data :
  (forall f v, f ∈ _validators self -> no_raise (f v)) ->
  no_raise (Type_load self data).
Proof.
  intros Hq. unfold Type_load.
  destruct (run_validators_total (_validators self) data new_builder)
    as (eb&->&_); [intros f e Hin; by apply Hq|].
  simpl. apply no_raise_bind; [apply no_raise_raise_errors|done].
Qed.

Lemma no_raise_for_each {K X R} (body : K -> X -> outcome (R -> R)) handler
    (items : list (K * X)) eb res :
  (forall k x, (k, x) ∈ items -> no_raise (body k x)) ->
  (forall k m eb0, exists eb1, handler k m eb0 = Ok eb1) ->
  exists eb' res', for_each body handler items eb res = Ok (eb', res').
Proof.
  intros Hb Hh. revert eb res.
  induction items as [|[k x] items IH]; intros eb res; [by eexists _, _|].
  assert (forall k' x', (k', x') ∈ items -> no_raise (body k' x')) as Hb'.
  { intros ?? Hin. apply Hb. by right. }
  simpl. destruct (body k x) as [u|m|e] eqn:Hbody.
  - by apply IH.
  - destruct (Hh k m eb) as [eb1 ->]. by apply IH.
  - exfalso. apply (Hb k x) with e; [by left|done].
Qed.

Lemma no_raise_report_unknown {F} self (fields : gmap string F) names eb :
  is_Some (_error_messages self !! "unknown") ->
  no_raise (report_unknown self fields names eb).
Proof.
  intros [msg Hmsg]. revert eb. induction names as [|k names IH]; intros eb; [done|].
  simpl. destruct (in_fields fields k); [apply IH|]. rewrite Hmsg. apply IH.
Qed.

Lemma quiet_load_no_raise (t : ty) :
  quiet t -> forall v, no_raise (load t v).
Proof.
  induction 1 as [self Hq|self Hq|self Hq|self Hq
                  |self item_type Hq _ IH
                  |self values default Hq _ IHv _ IHd
                  |self fields constructor allow Hq Hu Hc _ IHf]; intros v.
  - by apply no_raise_Type_load.
  - apply no_raise_bind; [by apply no_raise_when, no_raise_fail_required|].
    intros _ _. apply no_raise_bind;
      [by apply no_raise_when, no_raise_fail_invalid_type|].
    intros _ _. apply no_raise_Type_load, Hq.
  - apply no_raise_bind; [by apply no_raise_when, no_raise_fail_required|].
    intros _ _. apply no_raise_bind;
      [by apply no_raise_when, no_raise_fail_invalid_type|].
    intros _ _. apply no_raise_Type_load, Hq.
  - apply no_raise_bind; [by apply no_raise_when, no_raise_fail_required|].
    intros _ _. apply no_raise_bind;
      [by apply no_raise_when, no_raise_fail_invalid_type|].
    intros _ _. apply no_raise_Type_load, Hq.
  - change (no_raise (List_load self (load item_type) v)). unfold List_load.
    apply no_raise_bind; [by apply no_raise_when, no_raise_fail_required|].
    intros _ _. apply no_raise_bind;
      [by apply no_raise_when, no_raise_fail_invalid_type|].
    intros _ _.
    destruct (no_raise_for_each (List_try (load item_type)) record_at_index
                (enumerate (list_items v)) new_builder [])
      as (eb&items&->).
    { intros k x _. rewrite List_try_eq. apply no_raise_map, IH. }
    { intros. by eexists. }
    simpl. apply no_raise_bind; [apply no_raise_raise_errors|].
    intros _ _. apply no_raise_Type_load, Hq.
  - change (no_raise (Dict_load self
              (DictWithDefault_get (load <$> values) (load <$> default)) v)).
    unfold Dict_load.
    apply no_raise_bind; [by apply no_raise_when, no_raise_fail_required|].
    intros _ _. apply no_raise_bind;
      [by apply no_raise_when, no_raise_fail_invalid_type|].
    intros _ _.
    destruct (no_raise_for_each
                (Dict_try (DictWithDefault_get (load <$> values) (load <$> default)))
                (record_at_key id) (iteritems (dict_items v)) new_builder ∅)
      as (eb&result&->).
    { intros k x _. unfold Dict_try.
      destruct (DictWithDefault_get (load <$> values) (load <$> default) k)
        as [c|] eqn:Hc; [|done].
      apply DictWithDefault_get_fmap_Some in Hc as (t&Ht&->).
      apply no_raise_bind; [|done].
      unfold DictWithDefault_get in Ht.
      destruct (values !! k) as [t'|] eqn:Hk.
      - injection Ht as ->. by apply (IHv k).
      - by apply IHd. }
    { intros. by eexists. }
    simpl. apply no_raise_bind; [apply no_raise_raise_errors|].
    intros _ _. apply no_raise_Type_load, Hq.
  - change (no_raise (Object_load self (Field_load <$> fields) constructor allow v)).
    unfold Object_load.
    apply no_raise_bind; [by apply no_raise_when, no_raise_fail_required|].
    intros _ _. apply no_raise_bind;
      [by apply no_raise_when, no_raise_fail_invalid_type|].
    intros _ _.
    destruct (no_raise_for_each (Object_try v) (record_at_key KStr)
                (iteritems (Field_load <$> fields)) new_builder ∅)
      as (eb&result&->).
    { intros name fl (f&Hf&->)%Field_load_items. rewrite Object_try_eq.
      apply no_raise_map.
      destruct f as [| |field_type attribute| |]; try done. simpl.
      by apply (IHf name field_type attribute). }
    { intros. by eexists. }
    simpl. apply no_raise_bind.
    { destruct allow; simpl; [done|]. by apply no_raise_report_unknown. }
    intros eb' _. apply no_raise_bind; [apply no_raise_raise_errors|].
    intros _ _. apply no_raise_bind; [apply no_raise_Type_load, Hq|].
    intros _ _. apply Hc.
Qed.

Lemma default_attrs_quiet defaults :
  defaults !! "required" = Some (MStr "Value is required") ->
  defaults !! "invalid_type" = Some (MStr "Value should be {expected}") ->
  quiet_attrs (Type_init defaults validate_None None).
Proof.
  intros Hr Hi. unfold quiet_attrs. rewrite !Type_init_lookup. simpl.
  split_and!; [done..|]. intros f v Hin. by apply elem_of_nil in Hin.
Qed.

(** Property X22: on a schema without [Tuple], with the templates of
    [Type] and with validators and constructors that raise nothing but
    [ValidationError], [load] raises nothing but [ValidationError] and
    [validate] returns a message structure for every value. *)
Theorem validate_never_raises_without_Tuple (t : ty) (v : value) :
  quiet t ->
  (forall e, load t v ≠ Raise e)
  /\ exists m, validate t v = Ok m.
Proof.
  intros Hq. pose proof (quiet_load_no_raise t Hq v) as Hnr.
  split; [done|]. unfold validate.
  destruct (load t v) as [r|m|e] eqn:Hl; [by eexists..|].
  by destruct (Hnr e).
Qed.

Lemma validate_never_raises_without_Tuple_witness :
  exists m,
    validate (List_init (x_schema false) validate_None None)
             (VList [VDict {[ KStr "y" := VInt 2 ]}; VInt 3])
    = Ok m.
Proof.
  apply (validate_never_raises_without_Tuple
           (List_init (x_schema false) validate_None None)
           (VList [VDict {[ KStr "y" := VInt 2 ]}; VInt 3])).
  apply quiet_List; [by apply default_attrs_quiet|].
  apply quiet_Object.
  - by apply default_attrs_quiet.
  - by eexists.
  - done.
  - intros name field_type attribute Hf.
    apply lookup_fmap_Some in Hf as (f&Hf&[<- <-]%lookup_singleton_Some).
    injection Hf as <- _. apply quiet_Integer. by apply default_attrs_quiet.
Defined.
